(** * The multi-step input wizard of the GCP SSH extension

    A shallow embedding of [src/addKey.ts] (the [Connect] command, its four
    step functions and the [MultiStepInput] helper class) and of the command
    dispatcher of the extension's entry point.

    [showQuickPick], which [Connect] never calls, is left out; of the
    dispatcher's two actions only [Connect] is modelled.

    JavaScript's event loop is made explicit.  Everything the host reports to
    a prompt -- a keystroke, the Enter key, a button, the prompt being hidden,
    the timer of a pending validation firing -- is an [Event]; a run of the
    wizard is driven by the list of events the host delivers, in order.  A
    promise that is awaited while no event is left stays unsettled, which is
    the [suspended] completion. *)

From stdpp Require Import base option list strings gmap.

Open Scope string_scope.

(** ** Rejections, thenables, completions *)

(** [class InputFlowAction] has exactly three instances, compared by
    identity ([err === InputFlowAction.back]). *)
Inductive InputFlowAction := back | cancel | resume.

(** What a promise can be rejected with: one of the three flow actions, or
    anything else (an [Error], here identified by its message). *)
Inductive Rejection :=
| flow (action : InputFlowAction)
| failure (message : string).

(** The fate of a [Thenable<A>] somebody awaits. *)
Inductive Thenable (A : Type) :=
| resolves (a : A)
| rejects (r : Rejection)
| never_settles.
Arguments resolves {A} a.
Arguments rejects {A} r.
Arguments never_settles {A}.

(** The completion of an [async] function call as its caller observes it. *)
Inductive Completion (A : Type) :=
| returned (a : A)
| threw (r : Rejection)
| suspended.
Arguments returned {A} a.
Arguments threw {A} r.
Arguments suspended {A}.

(** ** The host's quick input *)

Module QuickInputButtons.
Inductive QuickInputButton := Back | custom (tooltip : string).
End QuickInputButtons.
Export QuickInputButtons.

#[global] Instance QuickInputButton_eq_dec : EqDecision QuickInputButton.
Proof. solve_decision. Defined.

(** The view model of an input box: the fields the source assigns, and the
    three facts about it the host owns ([enabled], [busy] default to an idle
    box; [visible] after [show()] until the box is hidden; [disposed]). *)
Module QuickInput.
Record t := mk {
  title : string;
  step : nat;
  totalSteps : nat;
  value : string;
  prompt : string;
  buttons : list QuickInputButton;
  validationMessage : option string;
  enabled : bool;
  busy : bool;
  visible : bool;
  disposed : bool
}.

Definition set_value (v : string) (i : t) : t :=
  mk (title i) (step i) (totalSteps i) v (prompt i) (buttons i)
     (validationMessage i) (enabled i) (busy i) (visible i) (disposed i).

Definition set_validationMessage (m : option string) (i : t) : t :=
  mk (title i) (step i) (totalSteps i) (value i) (prompt i) (buttons i)
     m (enabled i) (busy i) (visible i) (disposed i).

Definition set_enabled (b : bool) (i : t) : t :=
  mk (title i) (step i) (totalSteps i) (value i) (prompt i) (buttons i)
     (validationMessage i) b (busy i) (visible i) (disposed i).

Definition set_busy (b : bool) (i : t) : t :=
  mk (title i) (step i) (totalSteps i) (value i) (prompt i) (buttons i)
     (validationMessage i) (enabled i) b (visible i) (disposed i).

Definition set_visible (b : bool) (i : t) : t :=
  mk (title i) (step i) (totalSteps i) (value i) (prompt i) (buttons i)
     (validationMessage i) (enabled i) (busy i) b (disposed i).

(** [dispose()] also takes the box off the screen. *)
Definition dispose (i : t) : t :=
  mk (title i) (step i) (totalSteps i) (value i) (prompt i) (buttons i)
     (validationMessage i) (enabled i) (busy i) false true.
End QuickInput.

(** The events the host delivers to the live input box.  [ValidationDone id]
    is the promise returned by the [id]-th call of [validate] in this prompt
    being resolved (for the wizard's validator: its one-second timer firing). *)
Inductive Event :=
| DidChangeValue (text : string)
| DidAccept
| DidTriggerButton (item : QuickInputButton)
| DidHide
| ValidationDone (id : nat).

(** ** Parameters of [showInputBox] *)

Module InputBoxParameters.
Record t := mk {
  title : string;
  step : nat;
  totalSteps : nat;
  value : string;
  prompt : string;
  (** the string the promise of [validate(value)] resolves with *)
  validate : string -> option string;
  buttons : option (list QuickInputButton);
  shouldResume : Thenable bool
}.
End InputBoxParameters.

(** JavaScript truthiness of a [string | undefined]. *)
Definition truthy (m : option string) : bool :=
  match m with
  | None => false
  | Some s => if decide (s = "") then false else true
  end.

(** [s || ''] *)
Definition or_empty (s : option string) : string :=
  match s with
  | None => ""
  | Some v => v
  end.

(** ** One prompt: [MultiStepInput.showInputBox] *)

(** What the promise of a prompt is fulfilled with: the accepted text, or the
    custom button that was triggered ([resolve(<any>item)]). *)
Inductive Answer := accepted (value : string) | triggered (item : QuickInputButton).

Inductive Settlement := fulfilled (a : Answer) | rejected (r : Rejection).

(** A handler suspended at an [await] on a validation promise:
    [onDidChangeValue] remembers the promise it started ([current], the key
    under which the waiter is filed) and, to compute the promise's result,
    the text; [onDidAccept] remembers the [value] it read from the box. *)
Inductive Waiter :=
| changeWaiter (text : string)
| acceptWaiter (value : string).

(** The state of a prompt between two events. [validating] is the variable
    of that name: the identity of the validation promise started last by the
    constructor or by [onDidChangeValue]. Promise identities are numbers
    handed out in order by [fresh]. *)
Record Session := mkSession {
  input : QuickInput.t;
  validating : nat;
  fresh : nat;
  waiting : gmap nat Waiter;
  promise : option Settlement
}.

Definition with_input (f : QuickInput.t -> QuickInput.t) (s : Session) : Session :=
  mkSession (f (input s)) (validating s) (fresh s) (waiting s) (promise s).

(** [resolve] and [reject] of the prompt's promise: only the first call
    settles it. *)
Definition settle (x : Settlement) (s : Session) : Session :=
  match promise s with
  | None => mkSession (input s) (validating s) (fresh s) (waiting s) (Some x)
  | Some _ => s
  end.

Definition resolve (a : Answer) : Session -> Session := settle (fulfilled a).
Definition reject (r : Rejection) : Session -> Session := settle (rejected r).

Section Handlers.
Variable p : InputBoxParameters.t.

(** [input.onDidTriggerButton] *)
Definition onDidTriggerButton (item : QuickInputButton) (s : Session) : Session :=
  if decide (item = Back) then reject (flow back) s else resolve (triggered item) s.

(** [input.onDidAccept], up to its [await]: reads the box's value and
    starts a validation of it. *)
Definition onDidAccept (s : Session) : Session :=
  let value := QuickInput.value (input s) in
  mkSession (input s) (validating s) (S (fresh s))
            (<[fresh s := acceptWaiter value]> (waiting s)) (promise s).

(** [input.onDidChangeValue], up to its [await]: starts a validation of
    the text and records it in [validating]. *)
Definition onDidChangeValue (text : string) (s : Session) : Session :=
  let current := fresh s in
  mkSession (input s) current (S (fresh s))
            (<[current := changeWaiter text]> (waiting s)) (promise s).

(** [input.onDidHide] *)
Definition onDidHide (s : Session) : Session :=
  match InputBoxParameters.shouldResume p with
  | resolves b => reject (flow (if b then resume else cancel)) s
  | rejects r => reject r s
  | never_settles => s
  end.

(** The rest of a handler, run when the validation promise it awaits is
    resolved. *)
Definition resume_waiter (id : nat) (w : Waiter) (s : Session) : Session :=
  match w with
  | changeWaiter text =>
      let validationMessage := InputBoxParameters.validate p text in
      if decide (id = validating s)
      then with_input (QuickInput.set_validationMessage validationMessage) s
      else s
  | acceptWaiter value =>
      let s' := if truthy (InputBoxParameters.validate p value)
                then s else resolve (accepted value) s in
      with_input (fun i => QuickInput.set_busy false (QuickInput.set_enabled true i)) s'
  end.

(** The host delivers one event.  Keystrokes, Enter, buttons and hiding
    need a visible box, and a button one that the box offers; the first
    three come with the host's own update of the box. *)
Definition on_event (s : Session) (e : Event) : Session :=
  match e with
  | DidChangeValue text =>
      if QuickInput.visible (input s)
      then onDidChangeValue text (with_input (QuickInput.set_value text) s)
      else s
  | DidAccept =>
      if QuickInput.visible (input s) then onDidAccept s else s
  | DidTriggerButton item =>
      if QuickInput.visible (input s) && bool_decide (item ∈ QuickInput.buttons (input s))
      then onDidTriggerButton item s
      else s
  | DidHide =>
      if QuickInput.visible (input s)
      then onDidHide (with_input (QuickInput.set_visible false) s)
      else s
  | ValidationDone id =>
      match waiting s !! id with
      | None => s
      | Some w =>
          resume_waiter id w
            (mkSession (input s) (validating s) (fresh s) (delete id (waiting s)) (promise s))
      end
  end.

(** The prompt's promise is awaited: events are delivered until it is
    settled.  The [finally] block then disposes the four subscriptions, so
    the events that follow are not this prompt's any more. *)
Fixpoint await_prompt (s : Session) (events : list Event) : Session * list Event :=
  match promise s with
  | Some _ => (s, events)
  | None =>
      match events with
      | [] => (s, [])
      | e :: events' => await_prompt (on_event s e) events'
      end
  end.

(** [window.createInputBox()] and the assignments that fill the box: an
    idle box, not yet on screen. *)
Definition createInputBox (steps_length : nat) : QuickInput.t :=
  QuickInput.mk (InputBoxParameters.title p) (InputBoxParameters.step p)
    (InputBoxParameters.totalSteps p)
    (InputBoxParameters.value p)   (* [value || '']: the same string *)
    (InputBoxParameters.prompt p)
    ((if decide (1 < steps_length) then [Back] else [])
       ++ default [] (InputBoxParameters.buttons p))
    None true false false false.

(** The executor of the prompt's promise, run to its end: the box is
    created and filled, [validating] is the promise of [validate('')]
    (promise 0, which nobody awaits), the four handlers are subscribed and
    the box is shown. The previous box, which the executor disposes, is not
    kept. *)
Definition open_session (steps_length : nat) : Session :=
  mkSession (QuickInput.set_visible true (createInputBox steps_length)) 0 1 ∅ None.

Definition completion_of (s : Session) : Completion Answer :=
  match promise s with
  | None => suspended
  | Some (fulfilled a) => returned a
  | Some (rejected r) => threw r
  end.

(** [showInputBox]: the completion, the driver's [current] afterwards, and
    the events left for whoever comes next. *)
Definition showInputBox (steps_length : nat) (events : list Event)
  : Completion Answer * option QuickInput.t * list Event :=
  let '(s, rest) := await_prompt (open_session steps_length) events in
  (completion_of s, Some (input s), rest).
End Handlers.


(** A prompt session's timers are followed while its promise is unsettled.
    A validation that outlives its prompt resumes a handler that can only
    call [resolve] on a settled promise and assign fields of a box that is no
    longer (or, after the last step, no longer usefully) the driver's
    [current], so nothing of what is modelled here observes it. *)

(** ** The other prompt: [MultiStepInput.showQuickPick] *)

(** [Connect] never shows a quick pick; the method is modelled beside
    [showInputBox], on the events a quick pick reports. *)
Module Pick.

(** The view model of a quick pick. [activeItems] is [None] until the
    source assigns it. *)
Record QuickPick (T : Type) := mkQuickPick {
  title : string;
  step : nat;
  totalSteps : nat;
  placeholder : string;
  items : list T;
  activeItems : option (list T);
  buttons : list QuickInputButton;
  enabled : bool;
  busy : bool;
  visible : bool;
  disposed : bool
}.
Arguments mkQuickPick {T} _ _ _ _ _ _ _ _ _ _ _.
Arguments title {T} _.
Arguments step {T} _.
Arguments totalSteps {T} _.
Arguments placeholder {T} _.
Arguments items {T} _.
Arguments activeItems {T} _.
Arguments buttons {T} _.
Arguments enabled {T} _.
Arguments busy {T} _.
Arguments visible {T} _.
Arguments disposed {T} _.

Definition set_visible {T} (b : bool) (i : QuickPick T) : QuickPick T :=
  mkQuickPick (title i) (step i) (totalSteps i) (placeholder i) (items i) (activeItems i)
    (buttons i) (enabled i) (busy i) b (disposed i).

(** [interface QuickPickParameters<T>] *)
Record Parameters (T : Type) := mkParameters {
  p_title : string;
  p_step : nat;
  p_totalSteps : nat;
  p_items : list T;
  p_activeItem : option T;
  p_placeholder : string;
  p_buttons : option (list QuickInputButton);
  p_shouldResume : Thenable bool
}.
Arguments mkParameters {T} _ _ _ _ _ _ _ _.
Arguments p_title {T} _.
Arguments p_step {T} _.
Arguments p_totalSteps {T} _.
Arguments p_items {T} _.
Arguments p_activeItem {T} _.
Arguments p_placeholder {T} _.
Arguments p_buttons {T} _.
Arguments p_shouldResume {T} _.

(** The events the host delivers to the live quick pick. *)
Inductive Event (T : Type) :=
| DidChangeSelection (items : list T)
| DidTriggerButton (item : QuickInputButton)
| DidHide.
Arguments DidChangeSelection {T} items.
Arguments DidTriggerButton {T} item.
Arguments DidHide {T}.

(** What the promise is fulfilled with: [items[0]] of a selection, which
    is [undefined] for an empty one, or the custom button triggered. *)
Inductive Answer (T : Type) :=
| selected (item : option T)
| triggered (item : QuickInputButton).
Arguments selected {T} item.
Arguments triggered {T} item.

Inductive Settlement (T : Type) :=
| fulfilled (a : Answer T)
| rejected (r : Rejection).
Arguments fulfilled {T} a.
Arguments rejected {T} r.

Record Session (T : Type) := mkSession {
  input : QuickPick T;
  promise : option (Settlement T)
}.
Arguments mkSession {T} _ _.
Arguments input {T} _.
Arguments promise {T} _.

Section Handlers.
Context {T : Type}.
Variable p : Parameters T.

Definition settle (x : Settlement T) (s : Session T) : Session T :=
  match promise s with
  | None => mkSession (input s) (Some x)
  | Some _ => s
  end.

Definition resolve (a : Answer T) : Session T -> Session T := settle (fulfilled a).
Definition reject (r : Rejection) : Session T -> Session T := settle (rejected r).

(** [input.onDidTriggerButton] *)
Definition onDidTriggerButton (item : QuickInputButton) (s : Session T) : Session T :=
  if decide (item = Back) then reject (flow back) s else resolve (triggered item) s.

(** [input.onDidChangeSelection(items => resolve(items[0]))] *)
Definition onDidChangeSelection (items : list T) (s : Session T) : Session T :=
  resolve (selected (head items)) s.

(** [input.onDidHide] *)
Definition onDidHide (s : Session T) : Session T :=
  match p_shouldResume p with
  | resolves b => reject (flow (if b then resume else cancel)) s
  | rejects r => reject r s
  | never_settles => s
  end.

(** The host delivers one event, to a pick that is on screen; a button
    is one the pick offers. *)
Definition on_event (s : Session T) (e : Event T) : Session T :=
  match e with
  | DidChangeSelection items =>
      if visible (input s) then onDidChangeSelection items s else s
  | DidTriggerButton item =>
      if visible (input s) && bool_decide (item ∈ buttons (input s))
      then onDidTriggerButton item s
      else s
  | DidHide =>
      if visible (input s)
      then onDidHide (mkSession (set_visible false (input s)) (promise s))
      else s
  end.

Fixpoint await_prompt (s : Session T) (events : list (Event T)) : Session T * list (Event T) :=
  match promise s with
  | Some _ => (s, events)
  | None =>
      match events with
      | [] => (s, [])
      | e :: events' => await_prompt (on_event s e) events'
      end
  end.

(** [window.createQuickPick<T>()] and the assignments that fill it. *)
Definition createQuickPick (steps_length : nat) : QuickPick T :=
  mkQuickPick (p_title p) (p_step p) (p_totalSteps p) (p_placeholder p) (p_items p)
    (match p_activeItem p with Some a => Some [a] | None => None end)
    ((if decide (1 < steps_length) then [Back] else []) ++ default [] (p_buttons p))
    true false false false.

Definition open_session (steps_length : nat) : Session T :=
  mkSession (set_visible true (createQuickPick steps_length)) None.

Definition completion_of (s : Session T) : Completion (Answer T) :=
  match promise s with
  | None => suspended
  | Some (fulfilled a) => returned a
  | Some (rejected r) => threw r
  end.

(** [showQuickPick]: the completion, the pick the driver's [current] then
    is, and the events left. *)
Definition showQuickPick (steps_length : nat) (events : list (Event T))
  : Completion (Answer T) * QuickPick T * list (Event T) :=
  let '(s, rest) := await_prompt (open_session steps_length) events in
  (completion_of s, input s, rest).
End Handlers.
End Pick.

(** ** The driver: [class MultiStepInput] *)

(** JavaScript arrays grow and shrink at the end. [pop] of an empty array is
    [undefined] and leaves it empty. *)
Definition push {A} (xs : list A) (x : A) : list A := xs ++ [x].
Definition pop {A} (xs : list A) : option A * list A := (last xs, removelast xs).

Section Driver.
(** Whatever a step function can reach besides the driver it is handed: the
    objects its closure captured, the host. *)
Variable World : Type.

(** [type InputStep = (input: MultiStepInput) => Thenable<InputStep | void>].
    Of the driver, a step can read [steps.length] and replace [current], both
    through the prompt methods only: [steps] itself is private. *)
#[warnings="-register-all"]
Inductive InputStep :=
| Step (call : nat -> option QuickInput.t -> World ->
               Completion (option InputStep) * option QuickInput.t * World).

Record MultiStepInput := mkInput {
  current : option QuickInput.t;
  steps : list InputStep
}.

(** How one pass through the body of [while (step)] ends. *)
Inductive Iteration :=
| next_iteration (step : option InputStep) (this : MultiStepInput) (w : World)
| rethrown (err : Rejection) (this : MultiStepInput) (w : World)
| awaiting (this : MultiStepInput) (w : World).

(** [this.current.enabled = false; this.current.busy = true] *)
Definition disable (i : QuickInput.t) : QuickInput.t :=
  QuickInput.set_busy true (QuickInput.set_enabled false i).

(** The body of the loop: the step is pushed on the history, the box on
    screen is greyed out, the step is invoked and awaited; if it throws, the
    [catch] clause decides. *)
Definition loop_body (step : InputStep) (this : MultiStepInput) (w : World) : Iteration :=
  let steps1 := push (steps this) step in
  let current1 := disable <$> current this in
  let 'Step call := step in
  match call (length steps1) current1 w with
  | (returned next, current2, w') => next_iteration next (mkInput current2 steps1) w'
  | (threw err, current2, w') =>
      match err with
      | flow back =>
          let '(_, steps2) := pop steps1 in
          let '(previous, steps3) := pop steps2 in
          next_iteration previous (mkInput current2 steps3) w'
      | flow resume =>
          let '(previous, steps2) := pop steps1 in
          next_iteration previous (mkInput current2 steps2) w'
      | flow cancel => next_iteration None (mkInput current2 steps1) w'
      | failure _ => rethrown err (mkInput current2 steps1) w'
      end
  | (suspended, current2, w') => awaiting (mkInput current2 steps1) w'
  end.

(** How the promise of [stepThrough] ends, with the driver and the world as
    they are left. *)
Inductive Outcome :=
| run_resolved (this : MultiStepInput) (w : World)
| run_rejected (err : Rejection) (this : MultiStepInput) (w : World)
| run_pending (this : MultiStepInput) (w : World)
| out_of_fuel.

(** After the loop: [if (this.current) this.current.dispose()]. *)
Definition dispose_current (this : MultiStepInput) : MultiStepInput :=
  mkInput (QuickInput.dispose <$> current this) (steps this).

(** [stepThrough], with [step] the loop variable. Each pass through the loop
    body costs one unit of fuel. Beside the outcome, the steps that were
    invoked are listed in the order of their invocation; the list is not in
    the source and nothing in the model reads it. *)
Fixpoint stepThrough (fuel : nat) (step : option InputStep)
    (this : MultiStepInput) (w : World) : list InputStep * Outcome :=
  match step with
  | None => ([], run_resolved (dispose_current this) w)
  | Some s =>
      match fuel with
      | 0 => ([], out_of_fuel)
      | S fuel' =>
          match loop_body s this w with
          | next_iteration step' this' w' =>
              let '(invoked, o) := stepThrough fuel' step' this' w' in
              (s :: invoked, o)
          | rethrown err this' w' => ([s], run_rejected err this' w')
          | awaiting this' w' => ([s], run_pending this' w')
          end
      end
  end.

(** [new MultiStepInput()] *)
Definition new_MultiStepInput : MultiStepInput := mkInput None [].

(** [static async run(start)] *)
Definition run (fuel : nat) (start : InputStep) (w : World) : list InputStep * Outcome :=
  stepThrough fuel (Some start) new_MultiStepInput w.
End Driver.

Arguments Step {World} call.
Arguments mkInput {World} current steps.
Arguments current {World} _.
Arguments steps {World} _.
Arguments next_iteration {World} step this w.
Arguments rethrown {World} err this w.
Arguments awaiting {World} this w.
Arguments run_resolved {World} this w.
Arguments run_rejected {World} err this w.
Arguments run_pending {World} this w.
Arguments out_of_fuel {World}.
Arguments loop_body {World} step this w.
Arguments dispose_current {World} this.
Arguments stepThrough {World} fuel step this w.
Arguments new_MultiStepInput {World}.
Arguments run {World} fuel start w.

(** ** The [Connect] command *)

(** [Partial<ProjectState>]: a field is [None] until a step assigns it. *)
Module ProjectState.
Record t := mk {
  name : option string;
  username : option string;
  ip : option string;
  key_name : option string
}.

(** [{} as Partial<ProjectState>] *)
Definition empty : t := mk None None None None.

Definition set_name (v : string) (s : t) : t := mk (Some v) (username s) (ip s) (key_name s).
Definition set_username (v : string) (s : t) : t := mk (name s) (Some v) (ip s) (key_name s).
Definition set_ip (v : string) (s : t) : t := mk (name s) (username s) (Some v) (key_name s).
Definition set_key_name (v : string) (s : t) : t := mk (name s) (username s) (ip s) (Some v).
End ProjectState.

(** What the step functions of [Connect] reach: the events the host has yet
    to deliver, the [state] object their closures share, and the integrated
    terminal, as the lines sent to it so far. *)
Record Host := mkHost {
  events : list Event;
  state : ProjectState.t;
  terminal : list string
}.

Definition sendText (line : string) (w : Host) : Host :=
  mkHost (events w) (state w) (terminal w ++ [line]).

(** A template literal's rendering of a [string | undefined]. *)
Definition interpolate (x : option string) : string := default "undefined" x.

(** The four prompts pass no [buttons], so their promise is typed [string].
    Were it fulfilled with a button, that object would be stored; it is
    rendered here the way a template literal would. *)
Definition as_string (a : Answer) : string :=
  match a with
  | accepted value => value
  | triggered _ => "[object Object]"
  end.

Definition title : string := "Connect to a GCP instance".

(** The resolution of the promise [validateNameIsUnique(name)] returns; the
    second it takes is the [ValidationDone] event of the call. *)
Definition validateNameIsUnique (name : string) : option string :=
  if decide (name = "vscode") then Some "Name not unique" else None.

Section Wizard.
(** The steps are stated for any fate of the promise [shouldResume()]
    returns. The source's own never settles: [shouldResume] below. *)
Variable shouldResume : Thenable bool.

(** What calling a step of this wizard takes and gives: [steps.length] and
    [current] of the driver it is handed, and the host. *)
Definition StepCall : Type :=
  nat -> option QuickInput.t -> Host ->
  Completion (option (InputStep Host)) * option QuickInput.t * Host.

(** [state.field = await input.showInputBox(p); k]: the step awaits its
    prompt on the host's events and, once the prompt is answered, goes on
    with [k]. The previous box, disposed by the prompt, is dropped. *)
Definition await_showInputBox (p : InputBoxParameters.t)
    (k : string -> Host -> option (InputStep Host) * Host) : StepCall :=
  fun steps_length _ w =>
    let '(c, current', rest) := showInputBox p steps_length (events w) in
    let w' := mkHost rest (state w) (terminal w) in
    match c with
    | returned a => let '(next, w'') := k (as_string a) w' in (returned next, current', w'')
    | threw err => (threw err, current', w')
    | suspended => (suspended, current', w')
    end.

Definition assign (set : string -> ProjectState.t -> ProjectState.t)
    (answer : string) (w : Host) : Host :=
  mkHost (events w) (set answer (state w)) (terminal w).

Definition projectKeyname : StepCall :=
  fun steps_length current w =>
    await_showInputBox
      (InputBoxParameters.mk title 4 4
         (or_empty (ProjectState.name (state w)))
         "Customized key name (GCP project-name by default)"
         validateNameIsUnique None shouldResume)
      (fun answer w => (None, assign ProjectState.set_key_name answer w))
      steps_length current w.

Definition projectIp : StepCall :=
  fun steps_length current w =>
    await_showInputBox
      (InputBoxParameters.mk title 3 4
         ""
         "Enter the IP address of the GCP compute instance"
         validateNameIsUnique None shouldResume)
      (fun answer w => (Some (Step projectKeyname), assign ProjectState.set_ip answer w))
      steps_length current w.

Definition projectUsername : StepCall :=
  fun steps_length current w =>
    await_showInputBox
      (InputBoxParameters.mk title 2 4
         ""
         "Enter the SSH key username"
         validateNameIsUnique None shouldResume)
      (fun answer w => (Some (Step projectIp), assign ProjectState.set_username answer w))
      steps_length current w.

Definition projectName : StepCall :=
  fun steps_length current w =>
    await_showInputBox
      (InputBoxParameters.mk title 1 4
         ""
         "Enter the GCP project-name"
         validateNameIsUnique None shouldResume)
      (fun answer w =>
         let w1 := assign ProjectState.set_name answer w in
         let w2 := sendText ("gcloud config set project " +:+ interpolate (ProjectState.name (state w1))) w1 in
         (Some (Step projectUsername), w2))
      steps_length current w.

(** [collectProjectInputs]: a fresh [state], the driver run from
    [projectName], and [state] returned when (and however) the run's promise
    is resolved. Every pass through the driver's loop that is followed by
    another takes at least one event, so the fuel given is enough. *)
Definition collectProjectInputs (w : Host) : list (InputStep Host) * Outcome Host :=
  run (S (length (events w))) (Step projectName)
      (mkHost (events w) ProjectState.empty (terminal w)).

(** What a call of [Connect] has done by the time nothing more can happen. *)
Record Connection := mkConnection {
  completion : Completion unit;
  collected : ProjectState.t;
  informationMessages : list string;
  terminalShown : bool;
  sent : list string
}.

(** The body of [Connect] after [await collectProjectInputs()]. *)
Definition connect_with (ssh_dir : option string) (state : ProjectState.t)
    (terminal : list string) : Connection :=
  mkConnection (returned ()) state
    ["Making GCP connection with SSH key '" +:+ interpolate (ProjectState.key_name state) +:+ "'"]
    true
    (terminal ++
       [ "rm -f -r gcp-vscode-ssh/";
         "git clone https://github.com/andrewdircks/gcp-vscode-ssh.git";
         "bash gcp-vscode-ssh/script.sh " +:+ interpolate ssh_dir
           +:+ " " +:+ interpolate (ProjectState.name state)
           +:+ " " +:+ interpolate (ProjectState.key_name state)
           +:+ " " +:+ interpolate (ProjectState.username state)
           +:+ " " +:+ interpolate (ProjectState.ip state) ]).

(** [Connect]: [ssh_dir] is the configured 'SSH Key Directory', if any;
    [host_events] what the host will deliver. [None] stands for the driver
    having been given too little fuel, which [Connect_total] below rules out
    for the source's [shouldResume]. *)
Definition Connect_on (ssh_dir : option string) (host_events : list Event)
  : option Connection :=
  let terminal0 : list string := [] in
  match snd (collectProjectInputs (mkHost host_events ProjectState.empty terminal0)) with
  | run_resolved _ w => Some (connect_with ssh_dir (state w) (terminal w))
  | run_rejected err _ w => Some (mkConnection (threw err) (state w) [] false (terminal w))
  | run_pending _ w => Some (mkConnection suspended (state w) [] false (terminal w))
  | out_of_fuel => None
  end.
End Wizard.

(** The source's [shouldResume]: a promise on which neither [resolve] nor
    [reject] is ever called. *)
Definition shouldResume : Thenable bool := never_settles.

(** [export async function Connect(context)] *)
Definition Connect : option string -> list Event -> option Connection :=
  Connect_on shouldResume.

(** ** The command of the extension's entry point *)

(** [options[selection[0].label](context).catch(console.error)] for the
    label [Connect]: what is written to the console. *)
Definition console_error (c : Connection) : list Rejection :=
  match completion c with
  | threw err => [err]
  | _ => []
  end.

(** ** Vocabulary of the statements *)

(** The host delivers a list of events to a session, settled or not. *)
Definition deliver (p : InputBoxParameters.t) (s : Session) (evs : list Event) : Session :=
  foldl (on_event p) s evs.

(** How a run ended ([None]: short of fuel), and what it left: the driver,
    the box in its [current], the world. *)
Definition ending {World} (o : Outcome World) : option (Completion unit) :=
  match o with
  | run_resolved _ _ => Some (returned ())
  | run_rejected err _ _ => Some (threw err)
  | run_pending _ _ => Some suspended
  | out_of_fuel => None
  end.

Definition final_driver {World} (o : Outcome World) : option (MultiStepInput World) :=
  match o with
  | run_resolved this _ | run_rejected _ this _ | run_pending this _ => Some this
  | out_of_fuel => None
  end.

Definition final_box {World} (o : Outcome World) : option QuickInput.t :=
  final_driver o ≫= current.

Definition final_world {World} (o : Outcome World) : option World :=
  match o with
  | run_resolved _ w | run_rejected _ _ w | run_pending _ w => Some w
  | out_of_fuel => None
  end.

(** Editing a value: keystrokes, and validations completing meanwhile. *)
Definition is_edit (e : Event) : bool :=
  match e with
  | DidChangeValue _ | ValidationDone _ => true
  | _ => false
  end.

Definition is_change (e : Event) : bool :=
  match e with
  | DidChangeValue _ => true
  | _ => false
  end.

(** The number of validations the edits start. *)
Fixpoint changes (edits : list Event) : nat :=
  match edits with
  | [] => 0
  | e :: edits' => (if is_change e then 1 else 0) + changes edits'
  end.

(** What the box holds after the edits. *)
Definition last_typed (initial : string) (edits : list Event) : string :=
  foldl (fun v e => match e with DidChangeValue t => t | _ => v end) initial edits.

(** The user enters one value: edits, then Enter, then the validation that
    Enter started completes. Promise 0 is the constructor's, the edits start
    promises 1, 2, ...; Enter starts the next one. *)
Definition entry (edits : list Event) : list Event :=
  edits ++ [DidAccept; ValidationDone (S (changes edits))].

(** The plainest entry of [v]: typed at once, validated, then accepted. *)
Definition typed (v : string) : list Event :=
  entry [DidChangeValue v; ValidationDone 1].

(** The chain of step functions, in the order the wizard runs them. *)
Definition chain (sr : Thenable bool) : list (InputStep Host) :=
  [Step (projectName sr); Step (projectUsername sr);
   Step (projectIp sr); Step (projectKeyname sr)].

(** The first [k] fields of the record are assigned. *)
Definition collected_upto (k : nat) (st : ProjectState.t) : Prop :=
  (1 <= k -> is_Some (ProjectState.name st)) /\
  (2 <= k -> is_Some (ProjectState.username st)) /\
  (3 <= k -> is_Some (ProjectState.ip st)) /\
  (4 <= k -> is_Some (ProjectState.key_name st)).

Definition is_project_set (line : string) : Prop :=
  exists name, line = "gcloud config set project " +:+ name.

(** The three lines [Connect] sends after the wizard. *)
Definition connection_commands (ssh_dir : option string) (st : ProjectState.t) : list string :=
  [ "rm -f -r gcp-vscode-ssh/";
    "git clone https://github.com/andrewdircks/gcp-vscode-ssh.git";
    "bash gcp-vscode-ssh/script.sh " +:+ interpolate ssh_dir
      +:+ " " +:+ interpolate (ProjectState.name st)
      +:+ " " +:+ interpolate (ProjectState.key_name st)
      +:+ " " +:+ interpolate (ProjectState.username st)
      +:+ " " +:+ interpolate (ProjectState.ip st) ].

(** A settled promise is accounted for by a handler of the source: an
    accept whose value passed validation, a custom button of the box, the
    back button of the box, or [shouldResume()] having settled. *)
Definition explained (p : InputBoxParameters.t) (s : Session) : Prop :=
  match promise s with
  | None => True
  | Some (fulfilled (accepted v)) => truthy (InputBoxParameters.validate p v) = false
  | Some (fulfilled (triggered b)) => b ∈ QuickInput.buttons (input s) /\ b <> Back
  | Some (rejected r) =>
      (r = flow back /\ Back ∈ QuickInput.buttons (input s)) \/
      (exists b : bool, InputBoxParameters.shouldResume p = resolves b /\
                        r = flow (if b then resume else cancel)) \/
      InputBoxParameters.shouldResume p = rejects r
  end.

(** The user is editing: the prompt is open and on screen, and no accept
    handler is waiting for its validation. *)
Definition editing (s : Session) : Prop :=
  promise s = None /\ QuickInput.visible (input s) = true /\
  forall id v, waiting s !! id <> Some (acceptWaiter v).

(** The loop of a run of the wizard is about to invoke the step at
    position [k] (or to end, past the last position): the history holds the
    steps before it, whose fields are assigned, and all the terminal has been
    sent are project-set lines. *)
Definition chain_state (sr : Thenable bool) (k : nat) (step : option (InputStep Host))
    (this : MultiStepInput Host) (w : Host) : Prop :=
  step = chain sr !! k /\ steps this = take k (chain sr) /\
  collected_upto k (state w) /\ Forall is_project_set (terminal w).

(** What the step at position [i] of the chain does with the value its
    prompt was answered with. *)
Definition answer_at (i : nat) (v : string) (w : Host) : Host :=
  match i with
  | 0 => sendText ("gcloud config set project " +:+ v) (assign ProjectState.set_name v w)
  | 1 => assign ProjectState.set_username v w
  | 2 => assign ProjectState.set_ip v w
  | _ => assign ProjectState.set_key_name v w
  end.

(** The prompt was hidden before anything was accepted: it is unanswered
    and off screen, and no accept handler is waiting for its validation. *)
Definition dismissed (s : Session) : Prop :=
  promise s = None /\ QuickInput.visible (input s) = false /\
  forall id v, waiting s !! id <> Some (acceptWaiter v).

(** No field of the record is the sentinel. *)
Definition clean (st : ProjectState.t) : Prop :=
  ProjectState.name st <> Some "vscode" /\ ProjectState.username st <> Some "vscode" /\
  ProjectState.ip st <> Some "vscode" /\ ProjectState.key_name st <> Some "vscode".

(** A field of the record is assigned only if the fields before it are. *)
Definition in_order (st : ProjectState.t) : Prop :=
  (is_Some (ProjectState.username st) -> is_Some (ProjectState.name st)) /\
  (is_Some (ProjectState.ip st) -> is_Some (ProjectState.username st)) /\
  (is_Some (ProjectState.key_name st) -> is_Some (ProjectState.ip st)).

(** [chain_state], with the two properties of the record above. *)
Definition wizard_state (k : nat) (step : option (InputStep Host))
    (this : MultiStepInput Host) (w : Host) : Prop :=
  chain_state shouldResume k step this w /\ clean (state w) /\ in_order (state w).

(** The box of the prompt at a history of [depth] steps, in a run of the
    wizard: numbered by the depth, of four, live, and offering the back
    button below the first step only. *)
Definition shows_position (depth : nat) (box : QuickInput.t) : Prop :=
  QuickInput.step box = depth /\ QuickInput.totalSteps box = 4 /\
  QuickInput.buttons box = (if decide (1 < depth) then [Back] else []) /\
  QuickInput.disposed box = false.

(** The terminal was last told to set the project the record names, if
    the record names one; it was told nothing if not. *)
Definition project_is_set (w : Host) : Prop :=
  last (terminal w)
    = (fun name => "gcloud config set project " +:+ name) <$> ProjectState.name (state w).

(** What the user can do to either kind of prompt: press a button, or
    dismiss the prompt; and the event each kind of prompt gets for it. *)
Inductive Gesture :=
| press (item : QuickInputButton)
| dismiss.

Definition text_event (g : Gesture) : Event :=
  match g with
  | press item => DidTriggerButton item
  | dismiss => DidHide
  end.

Definition pick_event {T} (g : Gesture) : Pick.Event T :=
  match g with
  | press item => Pick.DidTriggerButton item
  | dismiss => Pick.DidHide
  end.

(** The two kinds of prompt end alike: both unanswered, both rejected with
    the same thing, or both answered with the same button. *)
Definition alike {T} (c : Completion Answer) (c' : Completion (Pick.Answer T)) : Prop :=
  match c, c' with
  | suspended, suspended => True
  | threw r, threw r' => r = r'
  | returned (triggered b), returned (Pick.triggered b') => b = b'
  | _, _ => False
  end.

(** The two kinds of prompt, gesture by gesture. *)
Definition matched {T} (s : Session) (t : Pick.Session T) : Prop :=
  QuickInput.visible (input s) = Pick.visible (Pick.input t) /\
  QuickInput.buttons (input s) = Pick.buttons (Pick.input t) /\
  match promise s, Pick.promise t with
  | None, None => True
  | Some (rejected r), Some (Pick.rejected r') => r = r'
  | Some (fulfilled (triggered b)), Some (Pick.fulfilled (Pick.triggered b')) => b = b'
  | _, _ => False
  end.

Definition deliver_pick {T} (p : Pick.Parameters T) (s : Pick.Session T)
    (evs : list (Pick.Event T)) : Pick.Session T :=
  foldl (Pick.on_event p) s evs.

(** ** Prompt sessions *)

Section SessionFacts.
Variable p : InputBoxParameters.t.

Lemma await_prompt_settled s evs :
  promise s <> None -> await_prompt p s evs = (s, evs).
Proof. destruct evs; simpl; destruct (promise s); congruence. Qed.

Lemma await_prompt_cons s e evs :
  promise s = None -> await_prompt p s (e :: evs) = await_prompt p (on_event p s e) evs.
Proof. intros H. simpl. now rewrite H. Qed.

Lemma await_prompt_nil s : await_prompt p s [] = (s, []).
Proof. simpl. now destruct (promise s). Qed.

Lemma settle_input x s : input (settle x s) = input s.
Proof. unfold settle. now destruct (promise s). Qed.

Lemma settle_validating x s : validating (settle x s) = validating s.
Proof. unfold settle. now destruct (promise s). Qed.

Lemma settle_fresh x s : fresh (settle x s) = fresh s.
Proof. unfold settle. now destruct (promise s). Qed.

Lemma settle_waiting x s : waiting (settle x s) = waiting s.
Proof. unfold settle. now destruct (promise s). Qed.

Lemma settle_promise x s :
  promise (settle x s) = Some (default x (promise s)).
Proof. unfold settle. destruct (promise s) eqn:E; simpl; congruence. Qed.

(** No event touches the buttons, or the box's static fields. *)
Lemma on_event_buttons s e :
  QuickInput.buttons (input (on_event p s e)) = QuickInput.buttons (input s).
Proof.
  destruct e; simpl.
  - destruct (QuickInput.visible (input s)); reflexivity.
  - destruct (QuickInput.visible (input s)); reflexivity.
  - destruct (_ && _); [|reflexivity].
    unfold onDidTriggerButton, resolve, reject. destruct (decide _); now rewrite settle_input.
  - destruct (QuickInput.visible (input s)); [|reflexivity].
    unfold onDidHide, reject. destruct (InputBoxParameters.shouldResume p);
      rewrite ?settle_input; reflexivity.
  - destruct (waiting s !! id) as [[t|v]|]; simpl; [| |reflexivity].
    + destruct (decide _); reflexivity.
    + destruct (truthy _); unfold resolve; simpl; rewrite ?settle_input; reflexivity.
Qed.

Lemma on_event_step s e :
  QuickInput.step (input (on_event p s e)) = QuickInput.step (input s).
Proof.
  destruct e; simpl.
  - destruct (QuickInput.visible (input s)); reflexivity.
  - destruct (QuickInput.visible (input s)); reflexivity.
  - destruct (_ && _); [|reflexivity].
    unfold onDidTriggerButton, resolve, reject. destruct (decide _); now rewrite settle_input.
  - destruct (QuickInput.visible (input s)); [|reflexivity].
    unfold onDidHide, reject. destruct (InputBoxParameters.shouldResume p);
      rewrite ?settle_input; reflexivity.
  - destruct (waiting s !! id) as [[t|v]|]; simpl; [| |reflexivity].
    + destruct (decide _); reflexivity.
    + destruct (truthy _); unfold resolve; simpl; rewrite ?settle_input; reflexivity.
Qed.

(** A settled promise stays as it is. *)
Lemma on_event_settled s e x :
  promise s = Some x -> promise (on_event p s e) = Some x.
Proof.
  intros H. destruct e; simpl.
  - destruct (QuickInput.visible (input s)); exact H.
  - destruct (QuickInput.visible (input s)); exact H.
  - destruct (_ && _); [|exact H].
    unfold onDidTriggerButton, resolve, reject.
    destruct (decide _); rewrite settle_promise, H; reflexivity.
  - destruct (QuickInput.visible (input s)); [|exact H].
    unfold onDidHide, reject. destruct (InputBoxParameters.shouldResume p);
      rewrite ?settle_promise; simpl; rewrite H; reflexivity.
  - destruct (waiting s !! id) as [[t|v]|]; simpl; [| |exact H].
    + destruct (decide _); exact H.
    + destruct (truthy _); unfold resolve; simpl; rewrite ?settle_promise; simpl;
        rewrite H; reflexivity.
Qed.
End SessionFacts.

Section PromptFacts.
Variable p : InputBoxParameters.t.

Lemma deliver_cons s e evs : deliver p s (e :: evs) = deliver p (on_event p s e) evs.
Proof. reflexivity. Qed.

Lemma deliver_app s evs evs' : deliver p s (evs ++ evs') = deliver p (deliver p s evs) evs'.
Proof. unfold deliver. apply foldl_app. Qed.

Lemma on_event_explained s e : explained p s -> explained p (on_event p s e).
Proof.
  unfold explained. destruct (promise s) as [x|] eqn:E.
  { rewrite (on_event_settled p s e x E), on_event_buttons. auto. }
  intros _. destruct e; simpl.
  - destruct (QuickInput.visible (input s)); simpl; rewrite E; exact I.
  - destruct (QuickInput.visible (input s)); simpl; rewrite E; exact I.
  - destruct (QuickInput.visible (input s)); simpl; [|rewrite E; exact I].
    destruct (bool_decide _) eqn:B; simpl; [|rewrite E; exact I].
    apply bool_decide_eq_true in B.
    unfold onDidTriggerButton, resolve, reject.
    destruct (decide (item = Back)) as [->|Hne];
      rewrite settle_promise, settle_input; simpl; rewrite E; simpl; auto.
  - destruct (QuickInput.visible (input s)); simpl; [|rewrite E; exact I].
    unfold onDidHide, reject.
    destruct (InputBoxParameters.shouldResume p) as [b|r|] eqn:R;
      rewrite ?settle_promise; simpl; rewrite E; simpl; eauto.
  - destruct (waiting s !! id) as [[t|v]|]; simpl; [| |rewrite E; exact I].
    + destruct (decide _); simpl; rewrite E; exact I.
    + destruct (truthy _) eqn:T; simpl; [rewrite E; exact I|].
      unfold resolve. rewrite settle_promise. simpl. rewrite E. simpl. exact T.
Qed.

Lemma deliver_explained evs : forall s, explained p s -> explained p (deliver p s evs).
Proof.
  induction evs as [|e evs IH]; intros s H; [exact H|].
  rewrite deliver_cons. apply IH, on_event_explained, H.
Qed.

Lemma deliver_buttons evs : forall s,
  QuickInput.buttons (input (deliver p s evs)) = QuickInput.buttons (input s).
Proof.
  induction evs as [|e evs IH]; intros s; [reflexivity|].
  rewrite deliver_cons, IH. apply on_event_buttons.
Qed.

Lemma deliver_step evs : forall s,
  QuickInput.step (input (deliver p s evs)) = QuickInput.step (input s).
Proof.
  induction evs as [|e evs IH]; intros s; [reflexivity|].
  rewrite deliver_cons, IH. apply on_event_step.
Qed.

(** Awaiting a prompt delivers a prefix of the events: all of them if the
    promise stays unsettled, at least one if an unsettled promise ends up
    settled. *)
Lemma await_prompt_spec evs : forall s,
  exists consumed : list Event,
    evs = (consumed ++ snd (await_prompt p s evs))%list /\
    fst (await_prompt p s evs) = deliver p s consumed /\
    (promise (fst (await_prompt p s evs)) = None -> snd (await_prompt p s evs) = []) /\
    (promise s = None -> promise (fst (await_prompt p s evs)) <> None -> consumed <> []).
Proof.
  induction evs as [|e evs IH]; intros s.
  - exists []. rewrite await_prompt_nil. simpl. repeat split; auto.
  - destruct (promise s) as [x|] eqn:E.
    + exists []. rewrite await_prompt_settled by congruence. simpl.
      repeat split; auto; congruence.
    + rewrite await_prompt_cons by exact E.
      destruct (IH (on_event p s e)) as (consumed & H1 & H2 & H3 & _).
      exists (e :: consumed). simpl. repeat split; auto; congruence.
Qed.

Lemma on_event_edit s e :
  editing s -> is_edit e = true ->
  editing (on_event p s e) /\
  fresh (on_event p s e) = fresh s + (if is_change e then 1 else 0) /\
  QuickInput.value (input (on_event p s e))
    = match e with DidChangeValue t => t | _ => QuickInput.value (input s) end.
Proof.
  intros (Hp & Hv & Hw) He. destruct e; try discriminate He; simpl.
  - rewrite Hv. unfold onDidChangeValue, with_input. simpl. repeat split; auto; try lia.
    intros id v. simpl. destruct (decide (fresh s = id)) as [<-|Hne].
    + rewrite lookup_insert_eq. discriminate.
    + rewrite lookup_insert_ne by exact Hne. apply Hw.
  - destruct (waiting s !! id) as [[t|v]|] eqn:L.
    + simpl. assert (forall id' v, delete id (waiting s) !! id' <> Some (acceptWaiter v)) as Hd.
      { intros id' v. destruct (decide (id = id')) as [<-|Hne].
        - rewrite lookup_delete_eq. discriminate.
        - rewrite lookup_delete_ne by exact Hne. apply Hw. }
      destruct (decide _); simpl; repeat split; auto; lia.
    + exfalso. exact (Hw id v L).
    + repeat split; auto; lia.
Qed.

Lemma deliver_edits edits : forall s,
  editing s -> forallb is_edit edits = true ->
  editing (deliver p s edits) /\
  fresh (deliver p s edits) = fresh s + changes edits /\
  QuickInput.value (input (deliver p s edits)) = last_typed (QuickInput.value (input s)) edits.
Proof.
  induction edits as [|e edits IH]; intros s Hs He.
  - simpl. repeat split; auto; try apply Hs.
  - simpl in He. apply andb_prop in He as [He1 He2].
    destruct (on_event_edit s e Hs He1) as (Hs' & Hf & Hval).
    destruct (IH _ Hs' He2) as (H1 & H2 & H3).
    rewrite deliver_cons. split; [exact H1|]. split.
    + rewrite H2, Hf. simpl. lia.
    + rewrite H3, Hval. unfold last_typed. simpl. now destruct e.
Qed.

Lemma await_prompt_edits edits : forall s tail,
  editing s -> forallb is_edit edits = true ->
  await_prompt p s (edits ++ tail) = await_prompt p (deliver p s edits) tail.
Proof.
  induction edits as [|e edits IH]; intros s tail Hs He; [reflexivity|].
  simpl in He. apply andb_prop in He as [He1 He2].
  rewrite <- app_comm_cons.
  rewrite await_prompt_cons by apply Hs. rewrite deliver_cons.
  apply IH; [|exact He2]. now apply on_event_edit.
Qed.

Lemma open_session_editing n : editing (open_session p n).
Proof. repeat split. intros id v. unfold open_session. simpl. rewrite lookup_empty. discriminate. Qed.
End PromptFacts.

Section ShowInputBoxFacts.
Variable p : InputBoxParameters.t.

Lemma deliver_entry edits n :
  forallb is_edit edits = true ->
  truthy (InputBoxParameters.validate p (last_typed (InputBoxParameters.value p) edits)) = false ->
  promise (deliver p (open_session p n) (entry edits))
    = Some (fulfilled (accepted (last_typed (InputBoxParameters.value p) edits))).
Proof.
  intros He Hv. unfold entry. rewrite deliver_app.
  destruct (deliver_edits p edits _ (open_session_editing p n) He) as ((Hp & Hvis & Hw) & Hf & Hval).
  set (s1 := deliver p (open_session p n) edits) in *.
  simpl in Hf, Hval. rewrite <- Hf.
  unfold deliver. simpl. rewrite Hvis. unfold onDidAccept. simpl.
  rewrite lookup_insert_eq. simpl. rewrite Hval, Hv.
  unfold resolve. rewrite settle_promise. simpl. now rewrite Hp.
Qed.

Lemma await_prompt_entry edits n rest :
  forallb is_edit edits = true ->
  truthy (InputBoxParameters.validate p (last_typed (InputBoxParameters.value p) edits)) = false ->
  await_prompt p (open_session p n) (entry edits ++ rest)
    = (deliver p (open_session p n) (entry edits), rest).
Proof.
  intros He Hv. pose proof (deliver_entry edits n He Hv) as Hd.
  unfold entry in *. rewrite <- app_assoc.
  rewrite await_prompt_edits by (auto using open_session_editing).
  rewrite deliver_app in *.
  destruct (deliver_edits p edits _ (open_session_editing p n) He) as ((Hp & Hvis & Hw) & _).
  set (s1 := deliver p (open_session p n) edits) in *.
  cbn [app]. rewrite (await_prompt_cons p s1 DidAccept _ Hp).
  assert (promise (on_event p s1 DidAccept) = None) as Hp2.
  { simpl. rewrite Hvis. exact Hp. }
  rewrite (await_prompt_cons p _ _ _ Hp2).
  apply await_prompt_settled. intros Hn.
  enough (Some (fulfilled (accepted (last_typed (InputBoxParameters.value p) edits)))
          = @None Settlement) by discriminate.
  rewrite <- Hd. exact Hn.
Qed.

(** An entered value that passes validation answers the prompt. *)
Lemma showInputBox_entry edits n rest :
  forallb is_edit edits = true ->
  truthy (InputBoxParameters.validate p (last_typed (InputBoxParameters.value p) edits)) = false ->
  showInputBox p n (entry edits ++ rest)
    = (returned (accepted (last_typed (InputBoxParameters.value p) edits)),
       Some (input (deliver p (open_session p n) (entry edits))), rest).
Proof.
  intros He Hv. unfold showInputBox. rewrite await_prompt_entry by assumption.
  unfold completion_of. now rewrite deliver_entry.
Qed.

(** The back button, offered below the first step, rejects the prompt. *)
Lemma showInputBox_back edits n rest :
  1 < n -> forallb is_edit edits = true ->
  showInputBox p n (edits ++ DidTriggerButton Back :: rest)
    = (threw (flow back),
       Some (input (deliver p (open_session p n) (edits ++ [DidTriggerButton Back]))), rest).
Proof.
  intros Hn He. unfold showInputBox.
  rewrite await_prompt_edits by (auto using open_session_editing).
  rewrite deliver_app.
  destruct (deliver_edits p edits _ (open_session_editing p n) He) as ((Hp & Hvis & Hw) & _).
  pose proof (deliver_buttons p edits (open_session p n)) as Hb.
  set (s1 := deliver p (open_session p n) edits) in *.
  assert (promise (on_event p s1 (DidTriggerButton Back)) = Some (rejected (flow back))) as Hr.
  { simpl. rewrite Hvis, Hb. simpl. destruct (decide (1 < n)); [|lia].
    rewrite bool_decide_eq_true_2 by (simpl; apply list_elem_of_here).
    unfold onDidTriggerButton, reject. simpl.
    rewrite settle_promise. now rewrite Hp. }
  rewrite await_prompt_cons by exact Hp.
  rewrite await_prompt_settled by (rewrite Hr; discriminate).
  unfold completion_of, deliver. simpl foldl. now rewrite Hr.
Qed.

(** With no event left, the prompt stays on screen, unanswered. *)
Lemma showInputBox_idle n :
  showInputBox p n []
    = (suspended, Some (QuickInput.set_visible true (createInputBox p n)), []).
Proof. reflexivity. Qed.

(** However a prompt ends, a handler of the source accounts for it, and a
    prompt that ends has taken an event. *)
Lemma showInputBox_spec n evs :
  exists s',
    showInputBox p n evs = (completion_of s', Some (input s'), snd (await_prompt p (open_session p n) evs)) /\
    explained p s' /\
    QuickInput.buttons (input s')
      = ((if decide (1 < n) then [Back] else []) ++ default [] (InputBoxParameters.buttons p))%list /\
    QuickInput.step (input s') = InputBoxParameters.step p /\
    (promise s' = None -> snd (await_prompt p (open_session p n) evs) = []) /\
    (promise s' <> None -> length (snd (await_prompt p (open_session p n) evs)) < length evs).
Proof.
  destruct (await_prompt_spec p evs (open_session p n)) as (consumed & H1 & H2 & H3 & H4).
  exists (fst (await_prompt p (open_session p n) evs)).
  unfold showInputBox. destruct (await_prompt p (open_session p n) evs) as [s' rest] eqn:E.
  simpl in *. split; [reflexivity|]. subst s'. split.
  { apply deliver_explained. exact I. }
  rewrite deliver_buttons, deliver_step. repeat split; auto.
  intros Hs. specialize (H4 eq_refl Hs).
  rewrite H1, length_app. destruct consumed; [congruence|simpl; lia].
Qed.
End ShowInputBoxFacts.

(** ** The driver's loop *)

Lemma pop_push {A} (xs : list A) (x : A) : pop (push xs x) = (Some x, xs).
Proof. unfold pop, push. now rewrite last_snoc, removelast_last. Qed.

Section DriverFacts.
Context {World : Type}.
Implicit Types (this : MultiStepInput World) (w : World) (s : InputStep World).

Lemma stepThrough_done fuel this w :
  stepThrough fuel None this w = ([], run_resolved (dispose_current this) w).
Proof. now destruct fuel. Qed.

Lemma stepThrough_unfold fuel s this w :
  stepThrough (S fuel) (Some s) this w
    = match loop_body s this w with
      | next_iteration step' this' w' =>
          let '(invoked, o) := stepThrough fuel step' this' w' in (s :: invoked, o)
      | rethrown err this' w' => ([s], run_rejected err this' w')
      | awaiting this' w' => ([s], run_pending this' w')
      end.
Proof. reflexivity. Qed.

(** More fuel does not change a run that had enough. *)
Lemma stepThrough_fuel_mono fuel : forall step this w fuel',
  snd (stepThrough fuel step this w) <> out_of_fuel -> fuel <= fuel' ->
  stepThrough fuel' step this w = stepThrough fuel step this w.
Proof.
  induction fuel as [|fuel IH]; intros [s|] this w fuel' H Hle;
    try (now rewrite !stepThrough_done).
  - now contradict H.
  - destruct fuel' as [|fuel']; [lia|].
    rewrite !stepThrough_unfold in *.
    destruct (loop_body s this w) as [step' this' w'| |]; try reflexivity.
    rewrite (IH step' this' w' fuel'); [reflexivity| |lia].
    destruct (stepThrough fuel step' this' w'). exact H.
Qed.

Section OneCall.
Variable call : nat -> option QuickInput.t -> World ->
                Completion (option (InputStep World)) * option QuickInput.t * World.
Variables (this : MultiStepInput World) (w w' : World) (current' : option QuickInput.t).

(** What [call] is given: the history with the step pushed, the previous box
    greyed out. *)
Let depth := length (push (steps this) (Step call)).
Let shown := disable <$> current this.

Lemma loop_body_returned next :
  call depth shown w = (returned next, current', w') ->
  loop_body (Step call) this w
    = next_iteration next (mkInput current' (push (steps this) (Step call))) w'.
Proof. unfold loop_body, depth, shown. cbv zeta. now intros ->. Qed.

Lemma loop_body_back :
  call depth shown w = (threw (flow back), current', w') ->
  loop_body (Step call) this w
    = next_iteration (last (steps this)) (mkInput current' (removelast (steps this))) w'.
Proof.
  unfold loop_body, depth, shown. cbv zeta. intros ->.
  rewrite pop_push. reflexivity.
Qed.

Lemma loop_body_resume :
  call depth shown w = (threw (flow resume), current', w') ->
  loop_body (Step call) this w
    = next_iteration (Some (Step call)) (mkInput current' (steps this)) w'.
Proof.
  unfold loop_body, depth, shown. cbv zeta. intros ->.
  rewrite pop_push. reflexivity.
Qed.


Lemma loop_body_failure message :
  call depth shown w = (threw (failure message), current', w') ->
  loop_body (Step call) this w
    = rethrown (failure message) (mkInput current' (push (steps this) (Step call))) w'.
Proof. unfold loop_body, depth, shown. cbv zeta. now intros ->. Qed.

Lemma loop_body_suspended :
  call depth shown w = (suspended, current', w') ->
  loop_body (Step call) this w
    = awaiting (mkInput current' (push (steps this) (Step call))) w'.
Proof. unfold loop_body, depth, shown. cbv zeta. now intros ->. Qed.
End OneCall.

(** The loop rethrows nothing but what is no flow action. *)
Lemma loop_body_rethrown s this w err this' w' :
  loop_body s this w = rethrown err this' w' -> exists message, err = failure message.
Proof.
  destruct s as [call]. unfold loop_body. cbv zeta.
  destruct (call _ _ _) as [[[next|r|] c] w0]; try discriminate.
  destruct r as [[| |]|message]; rewrite ?pop_push; unfold pop; try discriminate.
  intros [= <- _ _]. eauto.
Qed.

Lemma stepThrough_rejected fuel : forall step this w err this' w',
  snd (stepThrough fuel step this w) = run_rejected err this' w' ->
  exists message, err = failure message.
Proof.
  induction fuel as [|fuel IH]; intros [s|] this w err this' w';
    rewrite ?stepThrough_done; try discriminate.
  rewrite stepThrough_unfold.
  destruct (loop_body s this w) as [step1 this1 w1|err1 this1 w1|this1 w1] eqn:E.
  - destruct (stepThrough fuel step1 this1 w1) as [tr o] eqn:E1. simpl. intros ->.
    apply (IH step1 this1 w1 err this' w'). now rewrite E1.
  - simpl. intros [= <- _ _]. eapply loop_body_rethrown, E.
  - discriminate.
Qed.

(** When the promise of [stepThrough] is resolved, [current] is disposed. *)
Lemma stepThrough_resolved fuel : forall step this w this' w',
  snd (stepThrough fuel step this w) = run_resolved this' w' ->
  exists this0, this' = dispose_current this0.
Proof.
  induction fuel as [|fuel IH]; intros [s|] this w this' w';
    rewrite ?stepThrough_done; try discriminate;
    try (simpl; intros [= <- _]; eauto; fail).
  rewrite stepThrough_unfold.
  destruct (loop_body s this w) as [step1 this1 w1|err1 this1 w1|this1 w1] eqn:E;
    try discriminate.
  destruct (stepThrough fuel step1 this1 w1) as [tr o] eqn:E1. simpl. intros ->.
  apply (IH step1 this1 w1 this' w'). now rewrite E1.
Qed.
End DriverFacts.

(** ** The prompts of the wizard *)

(** A prompt without custom buttons ends in one of three ways. *)
Lemma prompt_cases p n evs c cur rest :
  InputBoxParameters.buttons p = None ->
  showInputBox p n evs = (c, cur, rest) ->
  (exists v, c = returned (accepted v) /\
             truthy (InputBoxParameters.validate p v) = false /\
             length rest < length evs) \/
  (exists r, c = threw r /\
             ((r = flow back /\ 1 < n) \/
              (exists b : bool, InputBoxParameters.shouldResume p = resolves b /\
                                r = flow (if b then resume else cancel)) \/
              InputBoxParameters.shouldResume p = rejects r) /\
             length rest < length evs) \/
  (c = suspended /\ rest = []).
Proof.
  intros Hb E.
  destruct (showInputBox_spec p n evs) as (s' & E' & Hex & Hbt & _ & Hnil & Hlt).
  rewrite E in E'. injection E' as -> -> ->.
  rewrite Hb in Hbt. simpl in Hbt. rewrite app_nil_r in Hbt.
  unfold explained in Hex. unfold completion_of.
  destruct (promise s') as [[[v|b]|r]|] eqn:P.
  - left. exists v. repeat split; auto.
  - exfalso. destruct Hex as [Hin Hne]. rewrite Hbt in Hin.
    destruct (decide (1 < n)).
    + apply list_elem_of_singleton in Hin. contradiction.
    + now apply not_elem_of_nil in Hin.
  - right. left. exists r. split; [reflexivity|]. split; [|apply Hlt; discriminate].
    destruct Hex as [[-> Hin]|[H|H]]; auto.
    left. split; [reflexivity|]. rewrite Hbt in Hin.
    destruct (decide (1 < n)); [assumption|]. now apply not_elem_of_nil in Hin.
  - right. right. auto.
Qed.

(** The validator of the wizard lets through everything but the sentinel. *)
Lemma validateNameIsUnique_passes v :
  truthy (validateNameIsUnique v) = false <-> v <> "vscode".
Proof.
  unfold validateNameIsUnique. destruct (decide (v = "vscode")); simpl; split; congruence.
Qed.

Arguments projectName : simpl never.
Arguments projectUsername : simpl never.
Arguments projectIp : simpl never.
Arguments projectKeyname : simpl never.
Arguments showInputBox : simpl never.

(** A step built on a prompt without custom buttons ends as its prompt does:
    answered by a value that passed validation, after which [k] runs;
    rejected; or left waiting, all events delivered. *)
Lemma await_showInputBox_cases p k n cur w c cur' w' :
  InputBoxParameters.buttons p = None ->
  await_showInputBox p k n cur w = (c, cur', w') ->
  (exists v rest,
      c = returned (fst (k v (mkHost rest (state w) (terminal w)))) /\
      w' = snd (k v (mkHost rest (state w) (terminal w))) /\
      truthy (InputBoxParameters.validate p v) = false /\
      length rest < length (events w)) \/
  (exists r rest,
      c = threw r /\ w' = mkHost rest (state w) (terminal w) /\
      ((r = flow back /\ 1 < n) \/
       (exists b : bool, InputBoxParameters.shouldResume p = resolves b /\
                         r = flow (if b then resume else cancel)) \/
       InputBoxParameters.shouldResume p = rejects r) /\
      length rest < length (events w)) \/
  (c = suspended /\ w' = mkHost [] (state w) (terminal w)).
Proof.
  intros Hb. unfold await_showInputBox.
  destruct (showInputBox p n (events w)) as [[c0 box] rest] eqn:E.
  apply prompt_cases in E; [|exact Hb].
  destruct E as [(v & -> & Hv & Hlt) | [(r & -> & Hr & Hlt) | [-> ->]]].
  - simpl. destruct (k v _) as [next w''] eqn:K. intros [= <- <- <-].
    left. exists v, rest. rewrite K. auto.
  - intros [= <- <- <-]. right. left. exists r, rest. auto.
  - intros [= <- <- <-]. auto.
Qed.

(** Case analysis on how the call [E] of a step of the wizard ended, with
    the source's [shouldResume]. *)
Ltac step_cases E :=
  let E2 := fresh "E" in
  pose proof E as E2;
  first [progress unfold projectName in E2 | progress unfold projectUsername in E2
        | progress unfold projectIp in E2 | progress unfold projectKeyname in E2];
  apply await_showInputBox_cases in E2; [|reflexivity];
  let v := fresh "v" in let rest := fresh "rest" in let r := fresh "r" in
  let Hv := fresh "Hv" in let Hlt := fresh "Hlt" in let Hr := fresh "Hr" in
  destruct E2 as [(v & rest & -> & -> & Hv & Hlt)
                 | [(r & rest & -> & -> & [[-> Hr]|[(? & Hr & _)|Hr]] & Hlt)
                   | [-> ->]]];
  try discriminate Hr.

Ltac call_of_loop_body this w E :=
  match goal with |- context [loop_body (Step ?call) this w] =>
    destruct (call (length (push (steps this) (Step call))) (disable <$> current this) w)
      as [[? ?] ?] eqn:E
  end.

Ltac solve_collected Hc :=
  let H1 := fresh in let H2 := fresh in let H3 := fresh in let H4 := fresh in
  unfold collected_upto in *; simpl; destruct Hc as (H1 & H2 & H3 & H4);
  repeat split; intros; eauto with lia.

Lemma collected_upto_le k k' st : k' <= k -> collected_upto k st -> collected_upto k' st.
Proof. unfold collected_upto. intros Hle (H1 & H2 & H3 & H4). repeat split; intros; auto with lia. Qed.

(** One pass through the loop, in a run of the wizard: it goes on to a
    neighbouring position having taken an event, or the step is left
    waiting; nothing is rethrown. *)
Lemma loop_body_chain k s this w :
  chain_state shouldResume k (Some s) this w ->
  match loop_body s this w with
  | next_iteration step' this' w' =>
      (exists k', chain_state shouldResume k' step' this' w') /\
      length (events w') < length (events w)
  | rethrown _ _ _ => False
  | awaiting _ w' => Forall is_project_set (terminal w')
  end.
Proof.
  intros (Hs & Hh & Hc & Ht).
  destruct k as [|[|[|[|k]]]]; simpl in Hs; try discriminate; injection Hs as ->;
    call_of_loop_body this w E; step_cases E;
    first [ rewrite (loop_body_returned _ _ _ _ _ _ E)
          | rewrite (loop_body_back _ _ _ _ _ E)
          | rewrite (loop_body_suspended _ _ _ _ _ E) ];
    try exact Ht;
    try (exfalso; rewrite Hh in *; simpl in *; lia).
  all: split; [|exact Hlt].
  all: match goal with
       | |- context [removelast _] => rewrite Hh; simpl
       | _ => idtac
       end.
  - exists 1. unfold chain_state. simpl. rewrite Hh.
    split; [reflexivity|]. split; [reflexivity|]. split; [solve_collected Hc|].
    apply Forall_app. split; [exact Ht|]. repeat constructor. eexists. reflexivity.
  - exists 2. unfold chain_state. simpl. rewrite Hh.
    split; [reflexivity|]. split; [reflexivity|]. split; [solve_collected Hc|exact Ht].
  - exists 0. unfold chain_state. simpl.
    split; [reflexivity|]. split; [reflexivity|]. split; [solve_collected Hc|exact Ht].
  - exists 3. unfold chain_state. simpl. rewrite Hh.
    split; [reflexivity|]. split; [reflexivity|]. split; [solve_collected Hc|exact Ht].
  - exists 1. unfold chain_state. simpl.
    split; [reflexivity|]. split; [reflexivity|]. split; [solve_collected Hc|exact Ht].
  - exists 4. unfold chain_state. simpl. rewrite Hh.
    split; [reflexivity|]. split; [reflexivity|]. split; [solve_collected Hc|exact Ht].
  - exists 2. unfold chain_state. simpl.
    split; [reflexivity|]. split; [reflexivity|]. split; [solve_collected Hc|exact Ht].
Qed.

(** A run of the wizard from any of its positions, with more fuel than
    events: its promise is resolved with the whole record collected, or it
    stays pending; all the while the terminal is sent project-set lines
    only. It is never rejected and never short of fuel. *)
Lemma wizard_run fuel : forall k step this w,
  chain_state shouldResume k step this w ->
  length (events w) < fuel ->
  match snd (stepThrough fuel step this w) with
  | run_resolved _ w' => collected_upto 4 (state w') /\ Forall is_project_set (terminal w')
  | run_pending _ w' => Forall is_project_set (terminal w')
  | run_rejected _ _ _ => False
  | out_of_fuel => False
  end.
Proof.
  induction fuel as [|fuel IH]; intros k [s|] this w Hk Hlen; try lia.
  - rewrite stepThrough_unfold.
    pose proof (loop_body_chain k s this w Hk) as Hb.
    destruct (loop_body s this w) as [step1 this1 w1|err1 this1 w1|this1 w1]; simpl; auto.
    destruct Hb as ((k' & Hk') & Hlt).
    specialize (IH k' step1 this1 w1 Hk' ltac:(lia)).
    destruct (stepThrough fuel step1 this1 w1) as [tr o]. exact IH.
  - rewrite stepThrough_done. simpl.
    destruct Hk as (Hs & _ & Hc & Ht). split; [|exact Ht].
    symmetry in Hs. apply lookup_ge_None in Hs. simpl in Hs.
    eapply collected_upto_le; [|exact Hc]. exact Hs.
Qed.

(** ** The steps of the wizard, event by event *)

Section StepFacts.
Variable sr : Thenable bool.
Variables (n : nat) (cur : option QuickInput.t).
Variables (edits rest : list Event) (st : ProjectState.t) (term : list string).
Hypothesis Hedits : forallb is_edit edits = true.

Lemma await_showInputBox_entry p k :
  truthy (InputBoxParameters.validate p (last_typed (InputBoxParameters.value p) edits)) = false ->
  await_showInputBox p k n cur (mkHost (entry edits ++ rest) st term)
    = (returned (fst (k (last_typed (InputBoxParameters.value p) edits) (mkHost rest st term))),
       Some (input (deliver p (open_session p n) (entry edits))),
       snd (k (last_typed (InputBoxParameters.value p) edits) (mkHost rest st term))).
Proof.
  intros Hv. unfold await_showInputBox. simpl events.
  rewrite showInputBox_entry by assumption. simpl. now destruct (k _ _).
Qed.

Lemma await_showInputBox_back p k :
  1 < n ->
  await_showInputBox p k n cur (mkHost (edits ++ DidTriggerButton Back :: rest) st term)
    = (threw (flow back),
       Some (input (deliver p (open_session p n) (edits ++ [DidTriggerButton Back]))),
       mkHost rest st term).
Proof.
  intros Hn. unfold await_showInputBox. simpl events.
  now rewrite showInputBox_back by assumption.
Qed.

Lemma projectName_entry :
  last_typed "" edits <> "vscode" ->
  exists box,
    projectName sr n cur (mkHost (entry edits ++ rest) st term)
    = (returned (Some (Step (projectUsername sr))), Some box,
       mkHost rest (ProjectState.set_name (last_typed "" edits) st)
              (term ++ ["gcloud config set project " +:+ last_typed "" edits])).
Proof.
  intros Hv. eexists. unfold projectName.
  rewrite await_showInputBox_entry by now apply validateNameIsUnique_passes.
  reflexivity.
Qed.

Lemma projectUsername_entry :
  last_typed "" edits <> "vscode" ->
  exists box,
    projectUsername sr n cur (mkHost (entry edits ++ rest) st term)
    = (returned (Some (Step (projectIp sr))), Some box,
       mkHost rest (ProjectState.set_username (last_typed "" edits) st) term).
Proof.
  intros Hv. eexists. unfold projectUsername.
  rewrite await_showInputBox_entry by now apply validateNameIsUnique_passes.
  reflexivity.
Qed.

Lemma projectIp_entry :
  last_typed "" edits <> "vscode" ->
  exists box,
    projectIp sr n cur (mkHost (entry edits ++ rest) st term)
    = (returned (Some (Step (projectKeyname sr))), Some box,
       mkHost rest (ProjectState.set_ip (last_typed "" edits) st) term).
Proof.
  intros Hv. eexists. unfold projectIp.
  rewrite await_showInputBox_entry by now apply validateNameIsUnique_passes.
  reflexivity.
Qed.

Lemma projectKeyname_entry :
  last_typed (or_empty (ProjectState.name st)) edits <> "vscode" ->
  exists box,
    projectKeyname sr n cur (mkHost (entry edits ++ rest) st term)
    = (returned None, Some box,
       mkHost rest
         (ProjectState.set_key_name (last_typed (or_empty (ProjectState.name st)) edits) st)
         term).
Proof.
  intros Hv. eexists. unfold projectKeyname.
  rewrite await_showInputBox_entry by now apply validateNameIsUnique_passes.
  reflexivity.
Qed.

Lemma projectUsername_back :
  1 < n ->
  exists box,
    projectUsername sr n cur (mkHost (edits ++ DidTriggerButton Back :: rest) st term)
    = (threw (flow back), Some box, mkHost rest st term).
Proof. intros Hn. eexists. unfold projectUsername. now rewrite await_showInputBox_back. Qed.

Lemma projectIp_back :
  1 < n ->
  exists box,
    projectIp sr n cur (mkHost (edits ++ DidTriggerButton Back :: rest) st term)
    = (threw (flow back), Some box, mkHost rest st term).
Proof. intros Hn. eexists. unfold projectIp. now rewrite await_showInputBox_back. Qed.

Lemma projectKeyname_back :
  1 < n ->
  exists box,
    projectKeyname sr n cur (mkHost (edits ++ DidTriggerButton Back :: rest) st term)
    = (threw (flow back), Some box, mkHost rest st term).
Proof. intros Hn. eexists. unfold projectKeyname. now rewrite await_showInputBox_back. Qed.
End StepFacts.

(** ** Validations in flight *)

Section ValidationFacts.
Variable p : InputBoxParameters.t.

(** An event leaves [validating] alone or moves it to the promise it has
    just started; identities are handed out upwards. *)
Lemma on_event_validating s e :
  (validating (on_event p s e) = validating s /\ fresh s <= fresh (on_event p s e)) \/
  (validating (on_event p s e) = fresh s /\ fresh (on_event p s e) = S (fresh s)).
Proof.
  destruct e; simpl.
  - destruct (QuickInput.visible (input s)); simpl; auto.
  - destruct (QuickInput.visible (input s)); simpl; auto.
  - destruct (_ && _); auto.
    unfold onDidTriggerButton, resolve, reject.
    destruct (decide _); rewrite settle_validating, settle_fresh; auto.
  - destruct (QuickInput.visible (input s)); auto.
    unfold onDidHide, reject.
    destruct (InputBoxParameters.shouldResume p);
      rewrite ?settle_validating, ?settle_fresh; simpl; auto.
  - destruct (waiting s !! id) as [[t|v]|]; simpl; auto.
    + destruct (decide _); simpl; auto.
    + destruct (truthy _); unfold resolve; simpl;
        rewrite ?settle_validating, ?settle_fresh; simpl; auto.
Qed.

Lemma deliver_validating evs : forall s bound,
  bound <= validating s -> validating s < fresh s ->
  bound <= validating (deliver p s evs) /\ validating (deliver p s evs) < fresh (deliver p s evs).
Proof.
  induction evs as [|e evs IH]; intros s bound H1 H2; [auto|].
  rewrite deliver_cons. apply IH;
    destruct (on_event_validating s e) as [[? ?]|[? ?]]; lia.
Qed.

(** Only the completion of the validation started last writes the
    validation message, and it writes that validation's result. *)
Lemma on_event_validationMessage s e :
  QuickInput.validationMessage (input (on_event p s e))
    <> QuickInput.validationMessage (input s) ->
  exists t, e = ValidationDone (validating s) /\
            waiting s !! validating s = Some (changeWaiter t) /\
            QuickInput.validationMessage (input (on_event p s e))
              = InputBoxParameters.validate p t.
Proof.
  destruct e; simpl.
  - destruct (QuickInput.visible (input s)); simpl; congruence.
  - destruct (QuickInput.visible (input s)); simpl; congruence.
  - destruct (_ && _); [|congruence].
    unfold onDidTriggerButton, resolve, reject.
    destruct (decide _); rewrite settle_input; congruence.
  - destruct (QuickInput.visible (input s)); [|congruence].
    unfold onDidHide, reject.
    destruct (InputBoxParameters.shouldResume p); rewrite ?settle_input; simpl; congruence.
  - destruct (waiting s !! id) as [[t|v]|] eqn:L; simpl; [| |congruence].
    + destruct (decide (id = validating s)) as [->|Hne]; simpl; [|congruence].
      intros _. eauto.
    + destruct (truthy _); unfold resolve; simpl; rewrite ?settle_input; simpl; congruence.
Qed.

Lemma stale_completion s stale :
  stale <> validating s ->
  QuickInput.validationMessage (input (on_event p s (ValidationDone stale)))
    = QuickInput.validationMessage (input s).
Proof.
  intros Hne.
  destruct (decide (QuickInput.validationMessage (input (on_event p s (ValidationDone stale)))
                    = QuickInput.validationMessage (input s))) as [H|H]; [exact H|].
  apply on_event_validationMessage in H as (t & [= ->] & _). contradiction.
Qed.

Lemma current_completion s t :
  waiting s !! validating s = Some (changeWaiter t) ->
  QuickInput.validationMessage (input (on_event p s (ValidationDone (validating s))))
    = InputBoxParameters.validate p t.
Proof. intros L. simpl. rewrite L. simpl. now rewrite decide_True. Qed.
End ValidationFacts.

(** ** The chain, position by position *)

Section ChainFacts.
Variable sr : Thenable bool.
Variables (n : nat) (cur : option QuickInput.t) (st : ProjectState.t) (term : list string).

(** Entering a value at one of the first three positions. *)
Lemma chain_entry i call edits rest :
  i < 3 -> chain sr !! i = Some (Step call) ->
  forallb is_edit edits = true -> last_typed "" edits <> "vscode" ->
  exists box,
    call n cur (mkHost (entry edits ++ rest) st term)
    = (returned (chain sr !! S i), Some box,
       answer_at i (last_typed "" edits) (mkHost rest st term)).
Proof.
  intros Hi Hc He Hv.
  destruct i as [|[|[|i]]]; try lia; injection Hc as <-.
  - apply projectName_entry; assumption.
  - apply projectUsername_entry; assumption.
  - apply projectIp_entry; assumption.
Qed.

(** The back button below the first step. *)
Lemma chain_back i call edits rest :
  chain sr !! S i = Some (Step call) -> 1 < n ->
  forallb is_edit edits = true ->
  exists box,
    call n cur (mkHost (edits ++ DidTriggerButton Back :: rest) st term)
    = (threw (flow back), Some box, mkHost rest st term).
Proof.
  intros Hc Hn He.
  destruct i as [|[|[|i]]]; try discriminate; injection Hc as <-.
  - apply projectUsername_back; assumption.
  - apply projectIp_back; assumption.
  - apply projectKeyname_back; assumption.
Qed.

(** One of the first three prompts, shown and left alone: an empty box. *)
Lemma chain_idle i call :
  i < 3 -> chain sr !! i = Some (Step call) ->
  exists box,
    call n cur (mkHost [] st term) = (suspended, Some box, mkHost [] st term) /\
    QuickInput.step box = S i /\ QuickInput.value box = "".
Proof.
  intros Hi Hc.
  destruct i as [|[|[|i]]]; try lia; injection Hc as <-;
    eexists; (split; [reflexivity|split; reflexivity]).
Qed.

(** A step of the wizard that returns has stored a value that passed the
    validator. *)
Lemma chain_returned i call w next cur' w' :
  chain sr !! i = Some (Step call) ->
  call n cur w = (returned next, cur', w') ->
  exists v rest,
    v <> "vscode" /\ w' = answer_at i v (mkHost rest (state w) (terminal w)) /\
    next = chain sr !! S i.
Proof.
  intros Hc E.
  destruct i as [|[|[|[|i]]]]; try discriminate; injection Hc as <-;
    first [progress unfold projectName in E | progress unfold projectUsername in E
          | progress unfold projectIp in E | progress unfold projectKeyname in E];
    (apply await_showInputBox_cases in E; [|reflexivity]);
    destruct E as [(v & rest & [= ->] & -> & Hv & _) | [(r & rest & [=] & _) | [[=] _]]];
    exists v, rest; (split; [now apply validateNameIsUnique_passes|split; reflexivity]).
Qed.
End ChainFacts.

(** X1. Whatever the host delivers, the driver has fuel enough for
    [Connect]: the loop goes round at most once more than there are events. *)
Lemma Connect_total ssh_dir host_events : is_Some (Connect ssh_dir host_events).
Proof.
  unfold Connect, Connect_on, collectProjectInputs, run. simpl events. simpl terminal.
  pose proof (wizard_run (S (length host_events)) 0 (Some (Step (projectName shouldResume)))
                new_MultiStepInput (mkHost host_events ProjectState.empty [])) as H.
  destruct (stepThrough _ _ _ _) as [tr [this w|err this w|this w|]]; simpl in *; eauto.
  all: exfalso; apply H; [|simpl; lia];
    repeat split; simpl; auto; intros; lia.
Qed.

(** * The claims *)

(** ** Completing the wizard *)

(** C1. A run of the wizard in which the user enters four values, one per
    prompt and none of them the sentinel "vscode" -- each entry being any
    edits of the box (keystrokes, validations completing), then Enter, then
    the validation Enter started completing -- ends with the promise of the
    driver resolved, after the four steps were invoked once each in order,
    and with the record holding the four accepted values in entry order:
    [name], [username], [ip], [key_name]. The value accepted by the fourth
    prompt is what its edits leave of the project name it starts from. *)
Theorem four_entries_fill_the_record (e1 e2 e3 e4 : list Event) :
  forallb is_edit e1 = true -> forallb is_edit e2 = true ->
  forallb is_edit e3 = true -> forallb is_edit e4 = true ->
  last_typed "" e1 <> "vscode" -> last_typed "" e2 <> "vscode" ->
  last_typed "" e3 <> "vscode" -> last_typed (last_typed "" e1) e4 <> "vscode" ->
  exists this,
    collectProjectInputs shouldResume
      (mkHost (entry e1 ++ entry e2 ++ entry e3 ++ entry e4) ProjectState.empty [])
    = (chain shouldResume,
       run_resolved (dispose_current this)
         (mkHost []
            (ProjectState.mk (Some (last_typed "" e1)) (Some (last_typed "" e2))
               (Some (last_typed "" e3)) (Some (last_typed (last_typed "" e1) e4)))
            ["gcloud config set project " +:+ last_typed "" e1])).
Proof.
  intros He1 He2 He3 He4 Hv1 Hv2 Hv3 Hv4.
  unfold collectProjectInputs, run. simpl events. simpl terminal.
  set (script := (entry e1 ++ entry e2 ++ entry e3 ++ entry e4)%list).
  assert (4 <= S (length script)) as Hfuel.
  { subst script. unfold entry. rewrite !length_app. simpl. lia. }
  set (w0 := mkHost script ProjectState.empty []).
  enough (exists this,
             stepThrough 4 (Some (Step (projectName shouldResume))) new_MultiStepInput w0
             = (chain shouldResume,
                run_resolved (dispose_current this)
                  (mkHost []
                     (ProjectState.mk (Some (last_typed "" e1)) (Some (last_typed "" e2))
                        (Some (last_typed "" e3)) (Some (last_typed (last_typed "" e1) e4)))
                     ["gcloud config set project " +:+ last_typed "" e1]))) as [this H].
  { exists this. rewrite <- H. apply stepThrough_fuel_mono; [|exact Hfuel]. now rewrite H. }
  subst w0 script.
  rewrite stepThrough_unfold.
  edestruct (projectName_entry shouldResume) as [box1 E1]; [exact He1|exact Hv1|].
  erewrite loop_body_returned by apply E1.
  rewrite stepThrough_unfold.
  edestruct (projectUsername_entry shouldResume) as [box2 E2]; [exact He2|exact Hv2|].
  erewrite loop_body_returned by apply E2.
  rewrite stepThrough_unfold.
  edestruct (projectIp_entry shouldResume) as [box3 E3]; [exact He3|exact Hv3|].
  erewrite loop_body_returned by apply E3.
  rewrite stepThrough_unfold.
  edestruct (projectKeyname_entry shouldResume) as [box4 E4]; [exact He4| |].
  2:{ rewrite <- (app_nil_r (entry e4)). erewrite loop_body_returned by apply E4.
      rewrite stepThrough_done. eexists. reflexivity. }
  exact Hv4.
Qed.

(** The run of C1 in which "proj1", "dev" and "1.2.3.4" are typed and the
    key name is accepted as proposed. *)
Lemma four_entries_fill_the_record_witness :
  exists this,
    collectProjectInputs shouldResume
      (mkHost (typed "proj1" ++ typed "dev" ++ typed "1.2.3.4" ++ entry [])
              ProjectState.empty [])
    = (chain shouldResume,
       run_resolved (dispose_current this)
         (mkHost []
            (ProjectState.mk (Some "proj1") (Some "dev") (Some "1.2.3.4") (Some "proj1"))
            ["gcloud config set project proj1"])).
Proof.
  apply (four_entries_fill_the_record
           [DidChangeValue "proj1"; ValidationDone 1]
           [DidChangeValue "dev"; ValidationDone 1]
           [DidChangeValue "1.2.3.4"; ValidationDone 1] []);
    first [reflexivity | discriminate].
Defined.

(** ** Validations in flight *)

(** C3. Take a prompt in any state, with any validations pending. A
    keystroke starts a newer validation. From then on, whatever happens in
    between -- the newer validation completing or not, further keystrokes,
    anything else -- the completion of a validation started before that
    keystroke leaves the validation message as it is; and the completion of
    the validation started last sets the message to that validation's own
    result. *)
Theorem stale_validation_never_overwrites
    (p : InputBoxParameters.t) (s : Session) (newer : string)
    (between : list Event) (stale : nat) :
  QuickInput.visible (input s) = true ->
  stale < fresh s ->
  let s' := deliver p (on_event p s (DidChangeValue newer)) between in
  QuickInput.validationMessage (input (on_event p s' (ValidationDone stale)))
    = QuickInput.validationMessage (input s') /\
  forall t, waiting s' !! validating s' = Some (changeWaiter t) ->
    QuickInput.validationMessage (input (on_event p s' (ValidationDone (validating s'))))
      = InputBoxParameters.validate p t.
Proof.
  intros Hvis Hstale s'. split; [|apply current_completion].
  apply stale_completion.
  destruct (deliver_validating p between (on_event p s (DidChangeValue newer)) (fresh s))
    as [Hb _].
  - simpl. rewrite Hvis. simpl. lia.
  - simpl. rewrite Hvis. simpl. lia.
  - fold s' in Hb. lia.
Qed.

(** "vscod" is typed, then "vscode"; the validation of "vscode" completes
    first and reports the name as taken; the validation of "vscod", which
    found nothing wrong, completes after it and changes nothing. *)
Lemma stale_validation_never_overwrites_witness :
  let p := InputBoxParameters.mk title 1 4 "" "Enter the GCP project-name"
             validateNameIsUnique None shouldResume in
  let s := deliver p (open_session p 1) [DidChangeValue "vscod"] in
  let s' := deliver p s [DidChangeValue "vscode"; ValidationDone 2] in
  QuickInput.validationMessage (input s') = Some "Name not unique" /\
  QuickInput.validationMessage (input (on_event p s' (ValidationDone 1)))
    = QuickInput.validationMessage (input s').
Proof.
  intros p s s'. split; [reflexivity|].
  refine (proj1 (stale_validation_never_overwrites p s "vscode" [ValidationDone 2] 1 _ _));
    [reflexivity | vm_compute; lia].
Defined.

(** ** Going back *)

(** C4. When the running step raises Back on a history of at least two
    steps -- the step itself, pushed when the pass began, on top of the
    previous one -- the loop pops both and goes round with the previous
    step. The next pass pushes the previous step again and invokes it on
    that history, which is one entry shorter than the one the step that
    raised Back was invoked on; whether it then returns or is left waiting,
    that is the history the driver holds. And on every forward advance the
    history grows by one entry: whatever the driver and the world, a step
    that returns leaves the history it found with itself pushed on it. *)
Theorem back_rewinds_one_step (World : Type)
    (history : list (InputStep World))
    (call_p call : nat -> option QuickInput.t -> World ->
                   Completion (option (InputStep World)) * option QuickInput.t * World)
    (cur cur' : option QuickInput.t) (w w' : World) (fuel : nat) :
  let previous := Step call_p in
  let this := mkInput cur (push history previous) in
  call (length (push (steps this) (Step call))) (disable <$> cur) w
    = (threw (flow back), cur', w') ->
  loop_body (Step call) this w = next_iteration (Some previous) (mkInput cur' history) w' /\
  stepThrough (S fuel) (Some (Step call)) this w
    = (let '(invoked, o) := stepThrough fuel (Some previous) (mkInput cur' history) w' in
       (Step call :: invoked, o)) /\
  (forall r cur2 w2,
      call_p (length (push history previous)) (disable <$> cur') w' = (r, cur2, w2) ->
      length (push (steps this) (Step call)) = S (length (push history previous)) /\
      match r with
      | returned next =>
          loop_body previous (mkInput cur' history) w'
          = next_iteration next (mkInput cur2 (push history previous)) w2
      | suspended =>
          loop_body previous (mkInput cur' history) w'
          = awaiting (mkInput cur2 (push history previous)) w2
      | threw _ => True
      end) /\
  (forall (call0 : nat -> option QuickInput.t -> World ->
                   Completion (option (InputStep World)) * option QuickInput.t * World)
          (this0 : MultiStepInput World) (w0 : World) next cur0 w0',
      call0 (length (push (steps this0) (Step call0))) (disable <$> current this0) w0
        = (returned next, cur0, w0') ->
      loop_body (Step call0) this0 w0
        = next_iteration next (mkInput cur0 (push (steps this0) (Step call0))) w0' /\
      length (push (steps this0) (Step call0)) = S (length (steps this0))).
Proof.
  intros previous this E.
  assert (loop_body (Step call) this w
          = next_iteration (Some previous) (mkInput cur' history) w') as Hb.
  { rewrite (loop_body_back call this w w' cur' E). subst this. simpl.
    unfold push. now rewrite last_snoc, removelast_last. }
  split; [exact Hb|]. split; [|split].
  - rewrite stepThrough_unfold, Hb. reflexivity.
  - intros r cur2 w2 Ep. split.
    + subst this. unfold push. simpl. rewrite !length_app. simpl. lia.
    + destruct r as [next|r|]; [| exact I |].
      * apply (loop_body_returned call_p (mkInput cur' history) w' w2 cur2 next Ep).
      * apply (loop_body_suspended call_p (mkInput cur' history) w' w2 cur2 Ep).
  - intros call0 this0 w0 next cur0 w0' E0. split.
    + apply (loop_body_returned call0 this0 w0 w0' cur0 next E0).
    + unfold push. rewrite length_app. simpl. lia.
Qed.

(** Back from the second prompt of the wizard, where the back button is
    offered: the loop goes round with the first step, on a history that is
    empty until the pass pushes it. *)
Lemma back_rewinds_one_step_witness :
  let w := mkHost [DidTriggerButton Back] (ProjectState.set_name "proj1" ProjectState.empty)
             ["gcloud config set project proj1"] in
  exists box,
    loop_body (Step (projectUsername shouldResume))
      (mkInput None (push [] (Step (projectName shouldResume)))) w
    = next_iteration (Some (Step (projectName shouldResume))) (mkInput (Some box) [])
        (mkHost [] (ProjectState.set_name "proj1" ProjectState.empty)
           ["gcloud config set project proj1"]).
Proof.
  intros w. eexists.
  refine (proj1 (back_rewinds_one_step Host [] (projectName shouldResume)
                   (projectUsername shouldResume) None _ w _ 0 _)).
  reflexivity.
Defined.

(** C10. When the one step on the history raises Back -- the first step,
    whose prompt offers no back button, though a step can still raise the
    signal -- the loop pops the history to empty, finds no previous step, and
    ends: the session in [current] is disposed and the promise of the driver
    is resolved, the step having been invoked that once. A step that returns
    nothing ends the run the same way, the history apart. *)
Theorem back_at_first_step_ends_the_run (World : Type)
    (call : nat -> option QuickInput.t -> World ->
            Completion (option (InputStep World)) * option QuickInput.t * World)
    (cur cur' : option QuickInput.t) (w w' : World) (fuel : nat) :
  call 1 (disable <$> cur) w = (threw (flow back), cur', w') ->
  stepThrough (S fuel) (Some (Step call)) (mkInput cur []) w
    = ([Step call], run_resolved (mkInput (QuickInput.dispose <$> cur') []) w') /\
  forall call0 : nat -> option QuickInput.t -> World ->
                 Completion (option (InputStep World)) * option QuickInput.t * World,
    call0 1 (disable <$> cur) w = (returned None, cur', w') ->
    stepThrough (S fuel) (Some (Step call0)) (mkInput cur []) w
      = ([Step call0], run_resolved (mkInput (QuickInput.dispose <$> cur') [Step call0]) w').
Proof.
  intros E. split.
  - rewrite stepThrough_unfold.
    rewrite (loop_body_back call (mkInput cur []) w w' cur' E).
    simpl. now rewrite stepThrough_done.
  - intros call0 E0. rewrite stepThrough_unfold.
    rewrite (loop_body_returned call0 (mkInput cur []) w w' cur' None E0).
    now rewrite stepThrough_done.
Qed.

(** A first step whose prompt is given the back button explicitly, and the
    user presses it. *)
Lemma back_at_first_step_ends_the_run_witness :
  let call : nat -> option QuickInput.t -> Host ->
             Completion (option (InputStep Host)) * option QuickInput.t * Host :=
    await_showInputBox
      (InputBoxParameters.mk title 1 1 "" "Enter the GCP project-name"
         validateNameIsUnique (Some [Back]) shouldResume)
      (fun answer w => (None, assign ProjectState.set_name answer w)) in
  exists box,
    QuickInput.disposed box = true /\
    stepThrough 1 (Some (Step call)) (mkInput None [])
      (mkHost [DidTriggerButton Back] ProjectState.empty [])
    = ([Step call], run_resolved (mkInput (Some box) []) (mkHost [] ProjectState.empty [])).
Proof.
  intros call. eexists. split; [|
    refine (proj1 (back_at_first_step_ends_the_run Host call None (Some _)
                     (mkHost [DidTriggerButton Back] ProjectState.empty []) _ 0 _));
    reflexivity].
  reflexivity.
Defined.

(** ** What leaves the driver *)

(** C9. The promise of [MultiStepInput.run] is never rejected with one of
    the three flow actions: a Back, Cancel or Resume a step raises is dealt
    with in the loop. Any other rejection a step raises is rethrown at once,
    as it is, and rejects the promise of [run]; [Connect] does not catch it
    either, and the command that called [Connect] writes it to the console. *)
Theorem flow_actions_do_not_escape (World : Type) (fuel : nat)
    (start : InputStep World) (w : World) :
  (forall err this' w',
      snd (run fuel start w) = run_rejected err this' w' ->
      exists message, err = failure message) /\
  (forall (call : nat -> option QuickInput.t -> World ->
                  Completion (option (InputStep World)) * option QuickInput.t * World)
          this0 w0 message cur' w',
      call (length (push (steps this0) (Step call))) (disable <$> current this0) w0
        = (threw (failure message), cur', w') ->
      stepThrough (S fuel) (Some (Step call)) this0 w0
        = ([Step call],
           run_rejected (failure message)
             (mkInput cur' (push (steps this0) (Step call))) w')) /\
  (forall sr ssh_dir host_events c err,
      Connect_on sr ssh_dir host_events = Some c ->
      completion c = threw err ->
      (exists message, err = failure message) /\ console_error c = [err]).
Proof.
  split; [|split].
  - intros err this' w'. apply stepThrough_rejected.
  - intros call this0 w0 message cur' w' E.
    rewrite stepThrough_unfold.
    now rewrite (loop_body_failure call this0 w0 w' cur' message E).
  - intros sr ssh_dir host_events c err. unfold Connect_on, console_error.
    destruct (collectProjectInputs sr _) as [tr o] eqn:E. simpl.
    destruct o as [this1 w1|err1 this1 w1|this1 w1|]; try discriminate;
      intros [= <-]; simpl; try discriminate.
    intros [= <-]. split; [|reflexivity].
    unfold collectProjectInputs, run in E.
    eapply stepThrough_rejected. rewrite E. reflexivity.
Qed.

(** A first prompt is hidden and the promise [shouldResume()] returns is
    rejected with an error: the error comes out of [run] as it is. *)
Lemma flow_actions_do_not_escape_witness :
  let start := Step (projectName (rejects (failure "no notification service"))) in
  let w := mkHost [DidHide] ProjectState.empty [] in
  exists box,
    stepThrough 1 (Some start) new_MultiStepInput w
    = ([start],
       run_rejected (failure "no notification service")
         (mkInput (Some box) (push [] start)) (mkHost [] ProjectState.empty [])).
Proof.
  intros start w. eexists.
  refine (proj1 (proj2 (flow_actions_do_not_escape Host 0 start w))
            (projectName (rejects (failure "no notification service")))
            new_MultiStepInput w "no notification service" (Some _) _ _).
  vm_compute. reflexivity.
Defined.

(** ** Disposing the last session *)

(** C8, as the code has it. When the loop ends because its condition fails
    -- a step returned nothing, Cancel was raised, or Back or Resume found
    the history empty -- the promise of the driver is resolved and the
    session in [current] is disposed. When a rejection that is no flow
    action comes out of a step, it is rethrown from inside the loop: the
    promise is rejected with [current] as the step left it, and the driver
    disposes nothing. *)
Theorem session_disposed_unless_rethrown (World : Type) (fuel : nat)
    (step : option (InputStep World)) (this : MultiStepInput World) (w : World) :
  (forall box,
      ending (snd (stepThrough fuel step this w)) = Some (returned ()) ->
      final_box (snd (stepThrough fuel step this w)) = Some box ->
      QuickInput.disposed box = true) /\
  (forall (call : nat -> option QuickInput.t -> World ->
                  Completion (option (InputStep World)) * option QuickInput.t * World)
          message cur' w',
      call (length (push (steps this) (Step call))) (disable <$> current this) w
        = (threw (failure message), cur', w') ->
      snd (stepThrough (S fuel) (Some (Step call)) this w)
        = run_rejected (failure message) (mkInput cur' (push (steps this) (Step call))) w').
Proof.
  split.
  - intros box He Hb.
    destruct (snd (stepThrough fuel step this w)) as [this' w'| | |] eqn:H;
      try discriminate He.
    apply stepThrough_resolved in H as [this0 ->].
    unfold final_box, dispose_current in Hb. simpl in Hb.
    destruct (current this0) as [box0|]; [|discriminate].
    injection Hb as <-. reflexivity.
  - intros call message cur' w' E. rewrite stepThrough_unfold.
    now rewrite (loop_body_failure call this w w' cur' message E).
Qed.

(** The end-to-end run resolves, and the box of the fourth prompt, which
    is in [current] by then, is disposed. *)
Lemma session_disposed_unless_rethrown_witness :
  let w := mkHost (typed "proj1" ++ typed "dev" ++ typed "1.2.3.4" ++ entry [])
             ProjectState.empty [] in
  let o := snd (stepThrough 4 (Some (Step (projectName shouldResume))) new_MultiStepInput w) in
  ending o = Some (returned ()) /\
  QuickInput.step <$> final_box o = Some 4 /\
  forall box, final_box o = Some box -> QuickInput.disposed box = true.
Proof.
  intros w o. split; [vm_compute; reflexivity|]. split; [vm_compute; reflexivity|].
  intros box.
  refine (proj1 (session_disposed_unless_rethrown Host 4
                   (Some (Step (projectName shouldResume))) new_MultiStepInput w) box _).
  vm_compute. reflexivity.
Defined.

(** C8 as stated fails: the promise [shouldResume()] returns is rejected
    with an error, the prompt that was hidden is rejected with it, and the
    run ends rejected with its input box still in [current], not disposed. *)
Lemma failure_leaves_session_undisposed :
  let o := snd (run 1 (Step (projectName (rejects (failure "shouldResume failed"))))
                  (mkHost [DidHide] ProjectState.empty [])) in
  ending o = Some (threw (failure "shouldResume failed")) /\
  QuickInput.step <$> final_box o = Some 1 /\
  QuickInput.disposed <$> final_box o = Some false.
Proof. vm_compute. repeat split. Qed.

(** ** Cancelling *)



(** The driver resolves its promise after Cancel as it does after the last
    step, so a caller cannot tell the two apart. [Connect] is safe from this
    only because its [shouldResume] never settles: with one that resolves to
    false in its place, the user entering "proj1" and dismissing the second
    prompt would have the three commands sent with three fields unassigned. *)
Remark Connect_relies_on_shouldResume_never_settling :
  fst (fst (projectUsername (resolves false) 2 None
              (mkHost [DidHide] (ProjectState.set_name "proj1" ProjectState.empty)
                 ["gcloud config set project proj1"])))
    = threw (flow cancel) /\
  Connect_on (resolves false) (Some "~/.ssh") (typed "proj1" ++ [DidHide])
    = Some (mkConnection (returned ())
              (ProjectState.mk (Some "proj1") None None None)
              ["Making GCP connection with SSH key 'undefined'"]
              true
              ["gcloud config set project proj1";
               "rm -f -r gcp-vscode-ssh/";
               "git clone https://github.com/andrewdircks/gcp-vscode-ssh.git";
               "bash gcp-vscode-ssh/script.sh ~/.ssh proj1 undefined undefined undefined"]) /\
  Connect (Some "~/.ssh") (typed "proj1" ++ [DidHide])
    = Some (mkConnection suspended
              (ProjectState.mk (Some "proj1") None None None)
              [] false
              ["gcloud config set project proj1"]).
Proof. repeat split; reflexivity. Qed.

(** ** Going back to a prompt *)

(** C5, as the code has it. In a run of the wizard, let the step at
    position [i + 1] (the second, third or fourth) be running, on the history
    of the steps before it, and let the user, after any edits, press the back
    button. Control returns to the step at position [i], whose prompt is
    shown again with an empty box, whatever the record holds for it. When the
    user then enters a value there, the step stores it and the chain goes
    forward again from position [i + 1], on the same history as before. *)
Theorem back_returns_to_an_empty_previous_prompt
    (i : nat) (previous s : InputStep Host) (cur : option QuickInput.t)
    (partial : list Event) (st : ProjectState.t) (term : list string) (fuel : nat) :
  chain shouldResume !! i = Some previous ->
  chain shouldResume !! S i = Some s ->
  forallb is_edit partial = true ->
  let this := mkInput cur (take (S i) (chain shouldResume)) in
  (exists box,
      stepThrough (S (S fuel)) (Some s) this
        (mkHost (partial ++ [DidTriggerButton Back]) st term)
      = ([s; previous],
         run_pending (mkInput (Some box) (take (S i) (chain shouldResume)))
           (mkHost [] st term)) /\
      QuickInput.step box = S i /\ QuickInput.value box = "") /\
  (forall edits rest,
      forallb is_edit edits = true -> last_typed "" edits <> "vscode" ->
      exists box,
        stepThrough (S (S fuel)) (Some s) this
          (mkHost (partial ++ DidTriggerButton Back :: entry edits ++ rest) st term)
        = (let '(invoked, o) :=
             stepThrough fuel (Some s)
               (mkInput (Some box) (take (S i) (chain shouldResume)))
               (answer_at i (last_typed "" edits) (mkHost rest st term)) in
           (s :: previous :: invoked, o))).
Proof.
  intros Hp Hs Hpartial this.
  assert (i < 3) as Hi.
  { apply lookup_lt_Some in Hs. simpl in Hs. lia. }
  destruct previous as [call_p], s as [call_s].
  assert (take (S i) (chain shouldResume) = push (take i (chain shouldResume)) (Step call_p))
    as Htake.
  { unfold push. erewrite take_S_r by exact Hp. reflexivity. }
  assert (length (take i (chain shouldResume)) = i) as Hlen.
  { rewrite length_take. simpl. lia. }
  assert (forall rest, exists box,
             loop_body (Step call_s) this (mkHost (partial ++ DidTriggerButton Back :: rest) st term)
             = next_iteration (Some (Step call_p))
                 (mkInput (Some box) (take i (chain shouldResume))) (mkHost rest st term))
    as Hback.
  { intros rest.
    edestruct (chain_back shouldResume (length (push (steps this) (Step call_s)))
                 (disable <$> current this) st term i call_s partial rest) as [box E];
      [exact Hs| |exact Hpartial|].
    - subst this. cbn [steps]. unfold push. rewrite !length_app, length_take. simpl. lia.
    - exists box. rewrite (loop_body_back _ _ _ _ _ E).
      subst this. cbn [steps]. rewrite Htake. unfold push.
      now rewrite last_snoc, removelast_last. }
  split.
  - destruct (Hback []) as [box0 Hb].
    edestruct (chain_idle shouldResume
                 (length (push (take i (chain shouldResume)) (Step call_p)))
                 (disable <$> Some box0) st term i call_p Hi Hp) as (box & E & Hstep & Hval).
    exists box. split; [|split; assumption].
    rewrite stepThrough_unfold, Hb, stepThrough_unfold.
    rewrite (loop_body_suspended call_p (mkInput (Some box0) (take i (chain shouldResume)))
               _ _ _ E).
    cbn [steps]. now rewrite <- Htake.
  - intros edits rest Hedits Hv.
    destruct (Hback (entry edits ++ rest)%list) as [box0 Hb].
    edestruct (chain_entry shouldResume
                 (length (push (take i (chain shouldResume)) (Step call_p)))
                 (disable <$> Some box0) st term i call_p edits rest Hi Hp Hedits Hv)
      as (box & E).
    exists box.
    rewrite stepThrough_unfold, Hb, stepThrough_unfold.
    rewrite (loop_body_returned call_p (mkInput (Some box0) (take i (chain shouldResume)))
               _ _ _ _ E).
    cbn [steps].
    rewrite <- Htake, Hs.
    destruct (stepThrough fuel _ _ _) as [invoked o]. reflexivity.
Qed.

(** Back from the second prompt after "proj1" was entered in the first,
    then "proj2" entered instead: the run waits at the second prompt with
    the new name in the record (and a second project-set line sent). *)
Lemma back_returns_to_an_empty_previous_prompt_witness :
  let this := mkInput None (take 1 (chain shouldResume)) in
  let st := ProjectState.set_name "proj1" ProjectState.empty in
  let term := ["gcloud config set project proj1"] in
  exists box,
    stepThrough 3 (Some (Step (projectUsername shouldResume))) this
      (mkHost ([] ++ DidTriggerButton Back :: typed "proj2" ++ []) st term)
    = (let '(invoked, o) :=
         stepThrough 1 (Some (Step (projectUsername shouldResume)))
           (mkInput (Some box) (take 1 (chain shouldResume)))
           (answer_at 0 "proj2" (mkHost [] st term)) in
       (Step (projectUsername shouldResume) :: Step (projectName shouldResume) :: invoked, o)).
Proof.
  intros this st term.
  refine (proj2 (back_returns_to_an_empty_previous_prompt 0
                   (Step (projectName shouldResume)) (Step (projectUsername shouldResume))
                   None [] st term 1 _ _ _)
                [DidChangeValue "proj2"; ValidationDone 1] [] _ _);
    first [reflexivity | discriminate].
Defined.

(** C5 as stated fails: "proj1" is entered in the first prompt, and the
    back button is pressed in the second. The first prompt is shown again;
    the record holds "proj1" as the name, the box is empty. *)
Lemma back_does_not_prefill :
  let o := snd (collectProjectInputs shouldResume
                  (mkHost (typed "proj1" ++ [DidTriggerButton Back]) ProjectState.empty [])) in
  ending o = Some suspended /\
  QuickInput.step <$> final_box o = Some 1 /\
  ProjectState.name <$> (state <$> final_world o) = Some (Some "proj1") /\
  QuickInput.value <$> final_box o = Some "".
Proof. vm_compute. repeat split. Qed.

(** ** What the terminal is sent *)

(** C6, as the code has it. The project-set command is sent from inside the
    first step, as soon as its prompt is answered and each time it is; the
    other three commands are sent once the promise of the wizard is resolved,
    by which time the whole record is collected. So whatever the host
    delivers, [Connect] either returns, having sent project-set lines and then
    the remove, clone and script lines printed from the complete record, or
    stays waiting for the wizard, having sent project-set lines only. In the
    end-to-end scenario -- "proj1", "dev", "1.2.3.4", the proposed key name
    accepted, "~/.ssh" configured -- the terminal is sent, in order, the
    project-set line, the remove line, the clone line and one script line
    with the directory and the four values. *)
Theorem commands_of_a_connection :
  (forall ssh_dir host_events,
      exists c,
        Connect ssh_dir host_events = Some c /\
        ((completion c = returned () /\
          collected_upto 4 (collected c) /\
          exists before,
            Forall is_project_set before /\
            sent c = (before ++ connection_commands ssh_dir (collected c))%list) \/
         (completion c = suspended /\ Forall is_project_set (sent c)))) /\
  Connect (Some "~/.ssh") (typed "proj1" ++ typed "dev" ++ typed "1.2.3.4" ++ entry [])
    = Some (mkConnection (returned ())
              (ProjectState.mk (Some "proj1") (Some "dev") (Some "1.2.3.4") (Some "proj1"))
              ["Making GCP connection with SSH key 'proj1'"]
              true
              ["gcloud config set project proj1";
               "rm -f -r gcp-vscode-ssh/";
               "git clone https://github.com/andrewdircks/gcp-vscode-ssh.git";
               "bash gcp-vscode-ssh/script.sh ~/.ssh proj1 proj1 dev 1.2.3.4"]).
Proof.
  split; [|reflexivity].
  intros ssh_dir host_events.
  unfold Connect, Connect_on, collectProjectInputs, run. simpl events. simpl terminal.
  pose proof (wizard_run (S (length host_events)) 0 (Some (Step (projectName shouldResume)))
                new_MultiStepInput (mkHost host_events ProjectState.empty [])) as H.
  assert (chain_state shouldResume 0 (Some (Step (projectName shouldResume)))
            new_MultiStepInput (mkHost host_events ProjectState.empty [])) as H0.
  { repeat split; simpl; auto; intros; lia. }
  specialize (H H0 ltac:(simpl; lia)).
  destruct (stepThrough _ _ _ _) as [tr [this w|err this w|this w|]]; simpl in *;
    try contradiction.
  - destruct H as [Hc Ht]. eexists. split; [reflexivity|]. left.
    split; [reflexivity|]. split; [exact Hc|]. exists (terminal w). split; [exact Ht|reflexivity].
  - eexists. split; [reflexivity|]. right. split; [reflexivity|exact H].
Qed.

(** C6 as stated fails: "proj1" is entered in the first prompt and nothing
    more happens. The wizard waits at its second prompt, and the terminal has
    already been sent the project-set command. *)
Lemma project_set_is_sent_before_completion :
  Connect (Some "~/.ssh") (typed "proj1")
    = Some (mkConnection suspended
              (ProjectState.mk (Some "proj1") None None None)
              [] false
              ["gcloud config set project proj1"]).
Proof. reflexivity. Qed.

(** ** The sentinel *)



(** "vscode" is typed into the first prompt and Enter pressed, twice: the
    wizard stays at the first prompt, which shows the message and is enabled
    and not busy, and nothing is stored or sent. *)
Example sentinel_keeps_the_wizard_waiting :
  let o := snd (collectProjectInputs shouldResume
                  (mkHost [DidChangeValue "vscode"; ValidationDone 1;
                           DidAccept; ValidationDone 2; DidAccept; ValidationDone 3]
                          ProjectState.empty [])) in
  ending o = Some suspended /\
  final_world o = Some (mkHost [] ProjectState.empty []) /\
  length <$> (steps <$> final_driver o) = Some 1 /\
  QuickInput.step <$> final_box o = Some 1 /\
  QuickInput.validationMessage <$> final_box o = Some (Some "Name not unique") /\
  QuickInput.enabled <$> final_box o = Some true /\
  QuickInput.busy <$> final_box o = Some false.
Proof. vm_compute. repeat split. Qed.

(** * Further properties *)

(** ** The proposed key name *)

(** X2. After three values are entered, none of them the sentinel, the
    wizard waits at its fourth prompt, whose box holds the project name that
    was entered first. *)
Theorem key_name_starts_from_the_project_name (e1 e2 e3 : list Event) :
  forallb is_edit e1 = true -> forallb is_edit e2 = true -> forallb is_edit e3 = true ->
  last_typed "" e1 <> "vscode" -> last_typed "" e2 <> "vscode" ->
  last_typed "" e3 <> "vscode" ->
  let o := snd (collectProjectInputs shouldResume
                  (mkHost (entry e1 ++ entry e2 ++ entry e3) ProjectState.empty [])) in
  ending o = Some suspended /\
  QuickInput.step <$> final_box o = Some 4 /\
  QuickInput.value <$> final_box o = Some (last_typed "" e1).
Proof.
  intros He1 He2 He3 Hv1 Hv2 Hv3.
  unfold collectProjectInputs, run. simpl events. simpl terminal.
  set (script := (entry e1 ++ entry e2 ++ entry e3)%list).
  assert (4 <= S (length script)) as Hfuel.
  { subst script. unfold entry. rewrite !length_app. simpl. lia. }
  set (w0 := mkHost script ProjectState.empty []).
  assert (exists box,
             snd (stepThrough 4 (Some (Step (projectName shouldResume))) new_MultiStepInput w0)
             = run_pending
                 (mkInput (Some box) (chain shouldResume))
                 (mkHost []
                    (ProjectState.mk (Some (last_typed "" e1)) (Some (last_typed "" e2))
                       (Some (last_typed "" e3)) None)
                    ["gcloud config set project " +:+ last_typed "" e1]) /\
             QuickInput.step box = 4 /\ QuickInput.value box = last_typed "" e1)
    as (box & H & Hstep & Hvalue).
  { subst w0 script.
    rewrite stepThrough_unfold.
    edestruct (projectName_entry shouldResume) as [box1 E1]; [exact He1|exact Hv1|].
    erewrite loop_body_returned by apply E1.
    rewrite stepThrough_unfold.
    edestruct (projectUsername_entry shouldResume) as [box2 E2]; [exact He2|exact Hv2|].
    erewrite loop_body_returned by apply E2.
    rewrite stepThrough_unfold.
    edestruct (projectIp_entry shouldResume) as [box3 E3]; [exact He3|exact Hv3|].
    rewrite <- (app_nil_r (entry e3)).
    erewrite loop_body_returned by apply E3.
    rewrite stepThrough_unfold.
    eexists. split; [|split]; [erewrite loop_body_suspended by reflexivity; reflexivity| |];
      reflexivity. }
  rewrite (stepThrough_fuel_mono 4); [|rewrite H; discriminate|exact Hfuel].
  rewrite H. simpl. now rewrite Hstep, Hvalue.
Qed.

(** "proj1", "dev" and "1.2.3.4" are entered: the fourth box opens on
    "proj1". *)
Lemma key_name_starts_from_the_project_name_witness :
  let o := snd (collectProjectInputs shouldResume
                  (mkHost (typed "proj1" ++ typed "dev" ++ typed "1.2.3.4")
                          ProjectState.empty [])) in
  ending o = Some suspended /\
  QuickInput.step <$> final_box o = Some 4 /\
  QuickInput.value <$> final_box o = Some "proj1".
Proof.
  apply (key_name_starts_from_the_project_name
           [DidChangeValue "proj1"; ValidationDone 1]
           [DidChangeValue "dev"; ValidationDone 1]
           [DidChangeValue "1.2.3.4"; ValidationDone 1]);
    first [reflexivity | discriminate].
Defined.

(** ** Resuming *)

(** X3. When the running step raises Resume, the loop pops it and goes round
    with it: the same step is invoked again, on the same history. *)
Theorem resume_runs_the_step_again (World : Type)
    (call : nat -> option QuickInput.t -> World ->
            Completion (option (InputStep World)) * option QuickInput.t * World)
    (this : MultiStepInput World) (cur' : option QuickInput.t) (w w' : World) (fuel : nat) :
  call (length (push (steps this) (Step call))) (disable <$> current this) w
    = (threw (flow resume), cur', w') ->
  stepThrough (S fuel) (Some (Step call)) this w
    = (let '(invoked, o) :=
         stepThrough fuel (Some (Step call)) (mkInput cur' (steps this)) w' in
       (Step call :: invoked, o)).
Proof.
  intros E. rewrite stepThrough_unfold.
  now rewrite (loop_body_resume call this w w' cur' E).
Qed.

(** The first prompt of a wizard whose [shouldResume()] resolves to true
    is hidden: the first step is run again. *)
Lemma resume_runs_the_step_again_witness :
  let start := Step (projectName (resolves true)) in
  exists box,
    stepThrough 2 (Some start) new_MultiStepInput (mkHost [DidHide] ProjectState.empty [])
    = (let '(invoked, o) :=
         stepThrough 1 (Some start) (mkInput (Some box) [])
           (mkHost [] ProjectState.empty []) in
       (start :: invoked, o)).
Proof.
  intros start. eexists.
  etransitivity;
    [ refine (resume_runs_the_step_again Host (projectName (resolves true))
                new_MultiStepInput (Some _) (mkHost [DidHide] ProjectState.empty []) _ 1 _);
      vm_compute; reflexivity
    | reflexivity ].
Defined.

(** ** Dismissing *)

Lemma on_event_dismissed p s e : dismissed s -> dismissed (on_event p s e).
Proof.
  intros (Hp & Hv & Hw). destruct e; simpl; rewrite ?Hv; simpl;
    try (repeat split; assumption).
  destruct (waiting s !! id) as [[t|v]|] eqn:L.
  - simpl.
    assert (forall id' v, delete id (waiting s) !! id' <> Some (acceptWaiter v)) as Hd.
    { intros id' v. destruct (decide (id = id')) as [<-|Hne].
      - rewrite lookup_delete_eq. discriminate.
      - rewrite lookup_delete_ne by exact Hne. apply Hw. }
    destruct (decide _); simpl; repeat split; auto.
  - exfalso. exact (Hw id v L).
  - repeat split; assumption.
Qed.

Lemma await_prompt_dismissed p evs : forall s,
  dismissed s ->
  snd (await_prompt p s evs) = [] /\ dismissed (fst (await_prompt p s evs)).
Proof.
  induction evs as [|e evs IH]; intros s Hs.
  - rewrite await_prompt_nil. auto.
  - rewrite await_prompt_cons by apply Hs. apply IH, on_event_dismissed, Hs.
Qed.

(** With a [shouldResume] whose promise never settles, a prompt hidden
    while the user was editing is left unsettled by all that follows. *)
Lemma showInputBox_dismissed p n edits host_events :
  InputBoxParameters.shouldResume p = never_settles ->
  forallb is_edit edits = true ->
  exists box,
    showInputBox p n (edits ++ DidHide :: host_events) = (suspended, Some box, []) /\
    QuickInput.visible box = false.
Proof.
  intros Hsr He. unfold showInputBox.
  rewrite await_prompt_edits by (auto using open_session_editing).
  destruct (deliver_edits p edits _ (open_session_editing p n) He) as ((Hp & Hvis & Hw) & _).
  set (s1 := deliver p (open_session p n) edits) in *.
  rewrite await_prompt_cons by exact Hp.
  assert (dismissed (on_event p s1 DidHide)) as Hd.
  { simpl. rewrite Hvis. unfold onDidHide. rewrite Hsr. repeat split; assumption. }
  destruct (await_prompt_dismissed p host_events _ Hd) as (Hrest & Hp' & Hv' & _).
  destruct (await_prompt p _ host_events) as [s' rest]. simpl in *. subst rest.
  exists (input s'). unfold completion_of. rewrite Hp'. auto.
Qed.

(** X4. With a [shouldResume] whose promise never settles, as the source's,
    a prompt that is hidden before any value was accepted -- at once, or
    after any keystrokes and validations -- is never settled: whatever the
    host delivers afterwards, [showInputBox] neither resolves nor rejects.
    So in a run of the wizard, whichever step is running and whatever the
    driver and the record hold, the run stays pending at that step from then
    on, with the record and the terminal as they were. *)
Theorem dismissed_prompt_is_never_settled
    (p : InputBoxParameters.t) (n : nat) (edits host_events : list Event) :
  InputBoxParameters.shouldResume p = never_settles ->
  forallb is_edit edits = true ->
  (exists box,
      showInputBox p n (edits ++ DidHide :: host_events) = (suspended, Some box, []) /\
      QuickInput.visible box = false) /\
  (forall i call (this : MultiStepInput Host) st term fuel,
      chain shouldResume !! i = Some (Step call) ->
      exists box,
        stepThrough (S fuel) (Some (Step call)) this
          (mkHost (edits ++ DidHide :: host_events) st term)
        = ([Step call],
           run_pending (mkInput (Some box) (push (steps this) (Step call)))
             (mkHost [] st term)) /\
        QuickInput.visible box = false).
Proof.
  intros Hsr He. split; [now apply showInputBox_dismissed|].
  intros i call this st term fuel Hi.
  assert (exists box,
             call (length (push (steps this) (Step call))) (disable <$> current this)
               (mkHost (edits ++ DidHide :: host_events) st term)
             = (suspended, Some box, mkHost [] st term) /\
             QuickInput.visible box = false) as (box & E & Hv).
  { destruct i as [|[|[|[|i]]]]; try discriminate; injection Hi as <-;
      first [progress unfold projectName | progress unfold projectUsername
            | progress unfold projectIp | progress unfold projectKeyname];
      unfold await_showInputBox; simpl events;
      match goal with |- context [showInputBox ?q ?m _] =>
        destruct (showInputBox_dismissed q m edits host_events eq_refl He) as (box & -> & Hv)
      end;
      (exists box; split; [reflexivity|exact Hv]). }
  exists box. split; [|exact Hv].
  rewrite stepThrough_unfold. now rewrite (loop_body_suspended call this _ _ _ E).
Qed.

(** "proj1" is typed into the first prompt of the wizard and the prompt is
    dismissed; what the user does next reaches nobody. *)
Lemma dismissed_prompt_is_never_settled_witness :
  let p := InputBoxParameters.mk title 1 4 "" "Enter the GCP project-name"
             validateNameIsUnique None shouldResume in
  exists box,
    showInputBox p 1
      ([DidChangeValue "proj1"; ValidationDone 1]
         ++ DidHide :: [DidChangeValue "proj2"; DidAccept; ValidationDone 2])
      = (suspended, Some box, []) /\
    QuickInput.visible box = false.
Proof.
  intros p.
  refine (proj1 (dismissed_prompt_is_never_settled p 1
                   [DidChangeValue "proj1"; ValidationDone 1]
                   [DidChangeValue "proj2"; DidAccept; ValidationDone 2] _ _));
    reflexivity.
Defined.

(** ** What a run of the wizard keeps *)

(** No event touches the frame of the box. *)
Lemma on_event_frame p s e :
  QuickInput.totalSteps (input (on_event p s e)) = QuickInput.totalSteps (input s) /\
  QuickInput.disposed (input (on_event p s e)) = QuickInput.disposed (input s).
Proof.
  destruct e; simpl.
  - destruct (QuickInput.visible (input s)); auto.
  - destruct (QuickInput.visible (input s)); auto.
  - destruct (_ && _); [|auto].
    unfold onDidTriggerButton, resolve, reject. destruct (decide _); now rewrite settle_input.
  - destruct (QuickInput.visible (input s)); [|auto].
    unfold onDidHide, reject. destruct (InputBoxParameters.shouldResume p);
      rewrite ?settle_input; auto.
  - destruct (waiting s !! id) as [[t|v]|]; simpl; [| |auto].
    + destruct (decide _); auto.
    + destruct (truthy _); unfold resolve; simpl; rewrite ?settle_input; auto.
Qed.

Lemma deliver_frame p evs : forall s,
  QuickInput.totalSteps (input (deliver p s evs)) = QuickInput.totalSteps (input s) /\
  QuickInput.disposed (input (deliver p s evs)) = QuickInput.disposed (input s).
Proof.
  induction evs as [|e evs IH]; intros s; [auto|].
  rewrite deliver_cons. destruct (IH (on_event p s e)) as [-> ->]. apply on_event_frame.
Qed.

(** The box a prompt leaves in [current], however the prompt ended. *)
Lemma showInputBox_box p n evs :
  exists box,
    snd (fst (showInputBox p n evs)) = Some box /\
    QuickInput.step box = InputBoxParameters.step p /\
    QuickInput.totalSteps box = InputBoxParameters.totalSteps p /\
    QuickInput.buttons box
      = ((if decide (1 < n) then [Back] else []) ++ default [] (InputBoxParameters.buttons p))%list /\
    QuickInput.disposed box = false.
Proof.
  destruct (await_prompt_spec p evs (open_session p n)) as (consumed & _ & H2 & _).
  unfold showInputBox. destruct (await_prompt p (open_session p n) evs) as [s' rest].
  simpl in *. subst s'. eexists. split; [reflexivity|].
  rewrite deliver_step, deliver_buttons.
  destruct (deliver_frame p consumed (open_session p n)) as [-> ->]. auto.
Qed.

Lemma wizard_step_box k call n cur w c cur' w' :
  chain shouldResume !! k = Some (Step call) ->
  call n cur w = (c, cur', w') ->
  exists box,
    cur' = Some box /\
    QuickInput.step box = S k /\ QuickInput.totalSteps box = 4 /\
    QuickInput.buttons box = (if decide (1 < n) then [Back] else []) /\
    QuickInput.disposed box = false.
Proof.
  intros Hc E.
  destruct k as [|[|[|[|k]]]]; try discriminate; injection Hc as <-;
    first [progress unfold projectName in E | progress unfold projectUsername in E
          | progress unfold projectIp in E | progress unfold projectKeyname in E];
    unfold await_showInputBox in E;
    match type of E with context [showInputBox ?p n ?evs] =>
      destruct (showInputBox_box p n evs) as (box & Hb & H1 & H2 & H3 & H4);
      destruct (showInputBox p n evs) as [[c0 b0] r0]
    end;
    simpl in Hb; subst b0; exists box;
    (destruct c0 as [a| |]; simpl in E; injection E as <- <- <-);
    simpl in *; rewrite app_nil_r in H3; auto.
Qed.

Ltac solve_record Hc Hcl Hio Hv :=
  try apply validateNameIsUnique_passes in Hv;
  unfold clean, in_order, collected_upto in *; simpl in *;
  destruct Hc as (? & ? & ? & ?); destruct Hcl as (? & ? & ? & ?);
  destruct Hio as (? & ? & ?);
  repeat split; intros; eauto with lia; congruence.

(** One pass through the loop keeps the record free of the sentinel and
    assigned in order. *)
Lemma loop_body_record k s this w :
  chain_state shouldResume k (Some s) this w ->
  clean (state w) -> in_order (state w) ->
  match loop_body s this w with
  | next_iteration _ _ w' | awaiting _ w' => clean (state w') /\ in_order (state w')
  | rethrown _ _ _ => True
  end.
Proof.
  intros (Hs & Hh & Hc & Ht) Hcl Hio.
  destruct k as [|[|[|[|k]]]]; simpl in Hs; try discriminate; injection Hs as ->;
    call_of_loop_body this w E; step_cases E;
    first [ rewrite (loop_body_returned _ _ _ _ _ _ E)
          | rewrite (loop_body_back _ _ _ _ _ E)
          | rewrite (loop_body_suspended _ _ _ _ _ E) ];
    simpl; try (split; assumption).
  all: split; solve_record Hc Hcl Hio Hv.
Qed.

(** A step of the wizard left waiting has its own box in [current]. *)
Lemma loop_body_awaiting k s this w this' w' :
  chain_state shouldResume k (Some s) this w ->
  loop_body s this w = awaiting this' w' ->
  exists box, current this' = Some box /\ shows_position (length (steps this')) box.
Proof.
  intros (Hs & Hh & _) Hl. destruct s as [call]. symmetry in Hs.
  assert (k < 4) as Hk by (apply lookup_lt_Some in Hs; simpl in Hs; lia).
  destruct (call (length (push (steps this) (Step call))) (disable <$> current this) w)
    as [[c cur'] w1] eqn:E.
  destruct (wizard_step_box k call _ _ _ _ _ _ Hs E) as (box & -> & H1 & H2 & H3 & H4).
  assert (length (push (steps this) (Step call)) = S k) as Hlen.
  { unfold push. rewrite length_app, Hh, length_take. simpl. lia. }
  unfold loop_body in Hl. cbv zeta in Hl. rewrite E in Hl.
  destruct c as [next|[[| |]|message]|]; rewrite ?pop_push in Hl; unfold pop in Hl;
    try discriminate Hl.
  injection Hl as <- <-. exists box. split; [reflexivity|].
  cbn [steps]. rewrite Hlen in *. repeat split; assumption.
Qed.

(** A run of the wizard from any of its positions, with more fuel than
    events: resolved or pending, it leaves a record free of the sentinel and
    assigned in order; pending, it leaves in [current] the box of the step
    that waits, numbered by the depth of the history. *)
Lemma wizard_run_keeps fuel : forall k step this w,
  wizard_state k step this w ->
  length (events w) < fuel ->
  match snd (stepThrough fuel step this w) with
  | run_resolved _ w' => clean (state w') /\ in_order (state w')
  | run_pending this' w' =>
      clean (state w') /\ in_order (state w') /\
      exists box, current this' = Some box /\ shows_position (length (steps this')) box
  | run_rejected _ _ _ => False
  | out_of_fuel => False
  end.
Proof.
  induction fuel as [|fuel IH]; intros k [s|] this w (Hk & Hcl & Hio) Hlen; try lia.
  - rewrite stepThrough_unfold.
    pose proof (loop_body_chain k s this w Hk) as Hb.
    pose proof (loop_body_record k s this w Hk Hcl Hio) as Hr.
    pose proof (loop_body_awaiting k s this w) as Ha.
    destruct (loop_body s this w) as [step1 this1 w1|err1 this1 w1|this1 w1]; simpl; auto.
    + destruct Hb as ((k' & Hk') & Hlt). destruct Hr as [Hcl' Hio'].
      specialize (IH k' step1 this1 w1 (conj Hk' (conj Hcl' Hio')) ltac:(lia)).
      destruct (stepThrough fuel step1 this1 w1) as [tr o]. exact IH.
    + destruct Hr as [Hcl' Hio']. split; [exact Hcl'|]. split; [exact Hio'|].
      apply (Ha this1 w1 Hk eq_refl).
  - rewrite stepThrough_done. simpl. auto.
Qed.

Lemma wizard_starts host_events :
  wizard_state 0 (Some (Step (projectName shouldResume))) new_MultiStepInput
    (mkHost host_events ProjectState.empty []).
Proof.
  repeat split; simpl; auto; try discriminate; try (intros; lia);
    intros [? [=]].
Qed.

(** X5. Whatever events the host delivers, and however far the wizard gets
    -- resolved, or waiting at some prompt, after any going back and forth --
    no field of the record holds the sentinel "vscode". *)
Theorem record_never_holds_the_sentinel (host_events : list Event) :
  exists w,
    final_world (snd (collectProjectInputs shouldResume
                        (mkHost host_events ProjectState.empty []))) = Some w /\
    ProjectState.name (state w) <> Some "vscode" /\
    ProjectState.username (state w) <> Some "vscode" /\
    ProjectState.ip (state w) <> Some "vscode" /\
    ProjectState.key_name (state w) <> Some "vscode".
Proof.
  unfold collectProjectInputs, run. simpl events. simpl terminal.
  pose proof (wizard_run_keeps (S (length host_events)) 0 _ _ _ (wizard_starts host_events)
                ltac:(simpl; lia)) as H.
  destruct (stepThrough _ _ _ _) as [tr [this w|err this w|this w|]]; simpl in *;
    try contradiction; exists w; (split; [reflexivity|]); apply H.
Qed.

(** X6. Whatever events the host delivers, the fields of the record are
    assigned in order: the username only once the name is, the IP address
    only once the username is, the key name only once the IP address is. *)
Theorem fields_are_assigned_in_order (host_events : list Event) :
  exists w,
    final_world (snd (collectProjectInputs shouldResume
                        (mkHost host_events ProjectState.empty []))) = Some w /\
    (is_Some (ProjectState.username (state w)) -> is_Some (ProjectState.name (state w))) /\
    (is_Some (ProjectState.ip (state w)) -> is_Some (ProjectState.username (state w))) /\
    (is_Some (ProjectState.key_name (state w)) -> is_Some (ProjectState.ip (state w))).
Proof.
  unfold collectProjectInputs, run. simpl events. simpl terminal.
  pose proof (wizard_run_keeps (S (length host_events)) 0 _ _ _ (wizard_starts host_events)
                ltac:(simpl; lia)) as H.
  destruct (stepThrough _ _ _ _) as [tr [this w|err this w|this w|]]; simpl in *;
    try contradiction; exists w; (split; [reflexivity|]); apply H.
Qed.

(** X7. Whenever the wizard is left waiting, the box in the driver's
    [current] is the waiting step's own: its step number is the depth of the
    navigation history, of four steps in all; it offers the back button
    exactly when that depth is more than one; and it is not disposed. *)
Theorem waiting_prompt_shows_its_position (host_events : list Event) :
  let o := snd (collectProjectInputs shouldResume
                  (mkHost host_events ProjectState.empty [])) in
  ending o = Some suspended ->
  exists this box,
    final_driver o = Some this /\ current this = Some box /\
    QuickInput.step box = length (steps this) /\
    QuickInput.totalSteps box = 4 /\
    QuickInput.buttons box = (if decide (1 < length (steps this)) then [Back] else []) /\
    QuickInput.disposed box = false.
Proof.
  unfold collectProjectInputs, run. simpl events. simpl terminal.
  pose proof (wizard_run_keeps (S (length host_events)) 0 _ _ _ (wizard_starts host_events)
                ltac:(simpl; lia)) as H.
  destruct (stepThrough _ _ _ _) as [tr [this w|err this w|this w|]]; simpl in *;
    try contradiction; try discriminate.
  intros _. destruct H as (_ & _ & box & Hb & Hpos).
  exists this, box. split; [reflexivity|]. split; [exact Hb|]. exact Hpos.
Qed.

(** Three values entered, then the back button: the wizard waits at its
    third prompt, whose box says so. *)
Lemma waiting_prompt_shows_its_position_witness :
  let o := snd (collectProjectInputs shouldResume
                  (mkHost (typed "proj1" ++ typed "dev" ++ typed "1.2.3.4"
                             ++ [DidTriggerButton Back])
                          ProjectState.empty [])) in
  ending o = Some suspended /\
  length <$> (steps <$> final_driver o) = Some 3 /\
  exists this box,
    final_driver o = Some this /\ current this = Some box /\
    QuickInput.step box = length (steps this) /\
    QuickInput.totalSteps box = 4 /\
    QuickInput.buttons box = (if decide (1 < length (steps this)) then [Back] else []) /\
    QuickInput.disposed box = false.
Proof.
  intros o. split; [vm_compute; reflexivity|]. split; [vm_compute; reflexivity|].
  apply (waiting_prompt_shows_its_position
           (typed "proj1" ++ typed "dev" ++ typed "1.2.3.4" ++ [DidTriggerButton Back])).
  vm_compute. reflexivity.
Defined.

(** ** The console *)

(** X13. [Connect] is never rejected, whatever the host delivers: nothing
    in the wizard throws but Back, which the driver handles. So the command
    that calls [Connect] never writes to the console on its account. *)
Theorem Connect_writes_nothing_to_the_console (ssh_dir : option string)
    (host_events : list Event) :
  exists c, Connect ssh_dir host_events = Some c /\ console_error c = [].
Proof.
  unfold Connect, Connect_on, collectProjectInputs, run. simpl events. simpl terminal.
  pose proof (wizard_run (S (length host_events)) 0 (Some (Step (projectName shouldResume)))
                new_MultiStepInput (mkHost host_events ProjectState.empty [])) as H.
  destruct (stepThrough _ _ _ _) as [tr [this w|err this w|this w|]]; simpl in *;
    eauto.
  all: exfalso; apply H; [apply wizard_starts|simpl; lia].
Qed.

(** ** Enter, then more keystrokes *)

(** Keystrokes after Enter leave the accept handler waiting where it is. *)
Lemma deliver_keystrokes p later : forall s id v,
  promise s = None -> QuickInput.visible (input s) = true ->
  waiting s !! id = Some (acceptWaiter v) -> id < fresh s ->
  forallb is_change later = true ->
  promise (deliver p s later) = None /\
  waiting (deliver p s later) !! id = Some (acceptWaiter v) /\
  QuickInput.value (input (deliver p s later)) = last_typed (QuickInput.value (input s)) later.
Proof.
  induction later as [|e later IH]; intros s id v Hp Hvis Hw Hid Hl; [auto|].
  simpl in Hl. apply andb_prop in Hl as [He Hl].
  destruct e as [t| | | |]; try discriminate He.
  rewrite deliver_cons.
  destruct (IH (on_event p s (DidChangeValue t)) id v) as (H1 & H2 & H3); auto.
  - simpl. now rewrite Hvis.
  - simpl. now rewrite Hvis.
  - simpl. rewrite Hvis. unfold onDidChangeValue. simpl.
    rewrite lookup_insert_ne by lia. exact Hw.
  - simpl. rewrite Hvis. simpl. lia.
  - repeat split; auto. rewrite H3. simpl. now rewrite Hvis.
Qed.

(** X8. Enter reads the box once. If the value the box holds when Enter is
    pressed passes validation, then whatever the user types while that
    validation is pending, the prompt is answered, when it completes, with
    the value read at Enter -- not with what the box holds by then, which
    the accept handler neither reads nor validates. *)
Theorem accept_answers_with_the_value_at_enter
    (p : InputBoxParameters.t) (s : Session) (later : list Event) :
  promise s = None ->
  QuickInput.visible (input s) = true ->
  truthy (InputBoxParameters.validate p (QuickInput.value (input s))) = false ->
  forallb is_change later = true ->
  let s' := deliver p (on_event p s DidAccept) later in
  promise (on_event p s' (ValidationDone (fresh s)))
    = Some (fulfilled (accepted (QuickInput.value (input s)))) /\
  QuickInput.value (input s') = last_typed (QuickInput.value (input s)) later.
Proof.
  intros Hp Hvis Hv Hl s'.
  destruct (deliver_keystrokes p later (on_event p s DidAccept) (fresh s)
              (QuickInput.value (input s))) as (H1 & H2 & H3); auto.
  - simpl. now rewrite Hvis.
  - simpl. now rewrite Hvis.
  - simpl. rewrite Hvis. unfold onDidAccept. simpl. apply lookup_insert_eq.
  - simpl. rewrite Hvis. simpl. lia.
  - fold s' in H1, H2, H3. split.
    + simpl. rewrite H2. simpl. rewrite Hv. unfold resolve.
      rewrite settle_promise. simpl. now rewrite H1.
    + rewrite H3. simpl. now rewrite Hvis.
Qed.

(** "vscod" is in the box, Enter is pressed, and the user types on to
    "vscode" before the validation completes: the prompt is answered with
    "vscod" while the box holds the sentinel. *)
Lemma accept_answers_with_the_value_at_enter_witness :
  let p := InputBoxParameters.mk title 1 4 "" "Enter the GCP project-name"
             validateNameIsUnique None shouldResume in
  let s := deliver p (open_session p 1) [DidChangeValue "vscod"] in
  let s' := deliver p (on_event p s DidAccept) [DidChangeValue "vscode"] in
  promise (on_event p s' (ValidationDone 2)) = Some (fulfilled (accepted "vscod")) /\
  QuickInput.value (input s') = "vscode".
Proof.
  intros p s.
  apply (accept_answers_with_the_value_at_enter p s [DidChangeValue "vscode"]);
    vm_compute; reflexivity.
Defined.

(** ** The steps a driver runs *)

(** X9. The driver runs nothing of its own: every step it invokes is the
    step it was started with, a step on the history it was started with, or
    a step that an invoked step returned. Going back and resuming re-invoke
    steps of the history only. *)
Theorem driver_invokes_handed_steps_only (World : Type) (P : InputStep World -> Prop)
    (fuel : nat) (step : option (InputStep World))
    (this : MultiStepInput World) (w : World) :
  (forall s, step = Some s -> P s) ->
  Forall P (steps this) ->
  (forall call n cur w0 next cur' w',
      P (Step call) -> call n cur w0 = (returned (Some next), cur', w') -> P next) ->
  Forall P (fst (stepThrough fuel step this w)).
Proof.
  intros Hstep Hhist Hclosed. revert step this w Hstep Hhist.
  induction fuel as [|fuel IH]; intros [s|] this w Hstep Hhist;
    rewrite ?stepThrough_done; try (constructor; fail).
  rewrite stepThrough_unfold.
  assert (P s) as Hs by auto.
  assert (forall step1 this1 w1,
             loop_body s this w = next_iteration step1 this1 w1 ->
             (forall s1, step1 = Some s1 -> P s1) /\ Forall P (steps this1)) as Hnext.
  { destruct s as [call]. unfold loop_body. cbv zeta.
    destruct (call _ _ _) as [[[next|[[| |]|message]|] c] w0] eqn:E;
      rewrite ?pop_push; unfold pop; intros step1 this1 w1; try discriminate;
      intros [= <- <- <-]; cbn [steps].
    - split.
      + intros s1 ->. eapply Hclosed; [exact Hs|exact E].
      + unfold push. apply Forall_app. split; [exact Hhist|]. repeat constructor. exact Hs.
    - split.
      + intros s1 Hl. apply last_Some in Hl as [l' Hl].
        rewrite Hl in Hhist. apply Forall_app in Hhist as [_ Hh].
        exact (Forall_inv Hh).
      + destruct (steps this) as [|x xs] using rev_ind; [constructor|].
        rewrite removelast_last. now apply Forall_app in Hhist as [Hh _].
    - split; [discriminate|].
      unfold push. apply Forall_app. split; [exact Hhist|]. repeat constructor. exact Hs.
    - split; [now intros s1 [= <-]|exact Hhist]. }
  destruct (loop_body s this w) as [step1 this1 w1| |]; try (repeat constructor; exact Hs).
  destruct (Hnext step1 this1 w1 eq_refl) as [H1 H2].
  specialize (IH step1 this1 w1 H1 H2).
  destruct (stepThrough fuel step1 this1 w1) as [tr o]. simpl in *.
  constructor; assumption.
Qed.

(** In a run of the wizard with going back, every step invoked is one of
    the four of the chain. *)
Lemma driver_invokes_handed_steps_only_witness :
  Forall (fun s => s ∈ chain shouldResume)
    (fst (stepThrough 4 (Some (Step (projectName shouldResume))) new_MultiStepInput
            (mkHost (typed "proj1" ++ [DidTriggerButton Back] ++ typed "proj2")
                    ProjectState.empty []))).
Proof.
  apply (driver_invokes_handed_steps_only Host (fun s => s ∈ chain shouldResume)).
  - intros s [= <-]. apply list_elem_of_here.
  - constructor.
  - intros call n cur w0 next cur' w' Hin E.
    apply list_elem_of_lookup in Hin as [i Hi].
    destruct (chain_returned shouldResume n cur i call w0 (Some next) cur' w' Hi E)
      as (_ & _ & _ & _ & Hn).
    apply list_elem_of_lookup. exists (S i). now symmetry.
Defined.

(** ** Buttons as answers *)

(** X10. A text prompt is answered with a button only if that button was
    passed to it as a custom button, and never with the back button; so a
    prompt given no custom buttons, as the four of the wizard are, is
    answered with text or not at all. *)
Theorem button_answers_are_custom_buttons
    (p : InputBoxParameters.t) (n : nat) (host_events : list Event) (b : QuickInputButton) :
  fst (fst (showInputBox p n host_events)) = returned (triggered b) ->
  b ∈ default [] (InputBoxParameters.buttons p) /\ b <> Back.
Proof.
  destruct (showInputBox_spec p n host_events) as (s' & -> & Hex & Hbt & _). simpl.
  unfold explained in Hex. unfold completion_of.
  destruct (promise s') as [[[v|b']|r]|]; try discriminate.
  intros [= ->]. destruct Hex as [Hin Hne]. split; [|exact Hne].
  rewrite Hbt in Hin. apply elem_of_app in Hin as [Hin|Hin]; [|exact Hin].
  destruct (decide (1 < n)).
  - apply list_elem_of_singleton in Hin. contradiction.
  - now apply not_elem_of_nil in Hin.
Qed.

(** A prompt passed one custom button, which the user presses. *)
Lemma button_answers_are_custom_buttons_witness :
  let help := custom "Help" in
  let p := InputBoxParameters.mk title 2 4 "" "Enter the SSH key username"
             validateNameIsUnique (Some [help]) shouldResume in
  fst (fst (showInputBox p 2 [DidTriggerButton help])) = returned (triggered help) /\
  help ∈ default [] (InputBoxParameters.buttons p) /\ help <> Back.
Proof.
  intros help p. split; [vm_compute; reflexivity|].
  apply (button_answers_are_custom_buttons p 2 [DidTriggerButton help] help).
  vm_compute. reflexivity.
Defined.

(** ** Quick picks *)

Section PickFacts.
Context {T : Type}.
Variable q : Pick.Parameters T.

Lemma pick_settle_promise x (t : Pick.Session T) :
  Pick.promise (Pick.settle x t) = Some (default x (Pick.promise t)).
Proof. unfold Pick.settle. destruct (Pick.promise t) eqn:E; simpl; congruence. Qed.

Lemma pick_settle_input x (t : Pick.Session T) :
  Pick.input (Pick.settle x t) = Pick.input t.
Proof. unfold Pick.settle. now destruct (Pick.promise t). Qed.

Lemma pick_on_event_settled (t : Pick.Session T) e x :
  Pick.promise t = Some x -> Pick.promise (Pick.on_event q t e) = Some x.
Proof.
  intros H. destruct e; simpl.
  - destruct (Pick.visible _); [|exact H].
    unfold Pick.onDidChangeSelection, Pick.resolve. rewrite pick_settle_promise, H. reflexivity.
  - destruct (_ && _); [|exact H].
    unfold Pick.onDidTriggerButton, Pick.resolve, Pick.reject.
    destruct (decide _); rewrite pick_settle_promise, H; reflexivity.
  - destruct (Pick.visible _); [|exact H].
    unfold Pick.onDidHide, Pick.reject. destruct (Pick.p_shouldResume q);
      rewrite ?pick_settle_promise; simpl; rewrite H; reflexivity.
Qed.

Lemma pick_await_settled (t : Pick.Session T) evs :
  Pick.promise t <> None -> Pick.await_prompt q t evs = (t, evs).
Proof. destruct evs; simpl; destruct (Pick.promise t); congruence. Qed.

Lemma pick_await_cons (t : Pick.Session T) e evs :
  Pick.promise t = None ->
  Pick.await_prompt q t (e :: evs) = Pick.await_prompt q (Pick.on_event q t e) evs.
Proof. intros H. simpl. now rewrite H. Qed.

Lemma pick_deliver_settled evs : forall (t : Pick.Session T) x,
  Pick.promise t = Some x -> Pick.promise (deliver_pick q t evs) = Some x.
Proof.
  induction evs as [|e evs IH]; intros t x H; [exact H|].
  apply (IH (Pick.on_event q t e)). now apply pick_on_event_settled.
Qed.

(** Events that leave the promise unsettled have all been delivered. *)
Lemma pick_await_unsettled before : forall (t : Pick.Session T) tail,
  Pick.promise (deliver_pick q t before) = None ->
  Pick.await_prompt q t (before ++ tail)
    = Pick.await_prompt q (deliver_pick q t before) tail.
Proof.
  induction before as [|e before IH]; intros t tail H; [reflexivity|].
  assert (Pick.promise t = None) as Ht.
  { destruct (Pick.promise t) as [x|] eqn:E; [|reflexivity].
    rewrite (pick_deliver_settled (e :: before) t x E) in H. discriminate. }
  rewrite <- app_comm_cons, pick_await_cons by exact Ht.
  apply IH. exact H.
Qed.
End PickFacts.

(** X11. A quick pick that is on screen and unanswered is answered by the
    next change of selection, whatever was delivered before, with the first
    item selected; an empty selection answers it too, with [undefined]. The
    pick it leaves is as it was. *)
Theorem selection_settles_the_pick (T : Type) (q : Pick.Parameters T) (n : nat)
    (before : list (Pick.Event T)) (items : list T) (rest : list (Pick.Event T)) :
  let t := deliver_pick q (Pick.open_session q n) before in
  Pick.promise t = None ->
  Pick.visible (Pick.input t) = true ->
  Pick.showQuickPick q n (before ++ Pick.DidChangeSelection items :: rest)
    = (returned (Pick.selected (head items)), Pick.input t, rest).
Proof.
  intros t Hp Hv. unfold Pick.showQuickPick.
  rewrite pick_await_unsettled by exact Hp. fold t.
  rewrite pick_await_cons by exact Hp.
  assert (Pick.promise (Pick.on_event q t (Pick.DidChangeSelection items))
          = Some (Pick.fulfilled (Pick.selected (head items)))) as Hs.
  { simpl. rewrite Hv. unfold Pick.onDidChangeSelection, Pick.resolve.
    rewrite pick_settle_promise. now rewrite Hp. }
  rewrite pick_await_settled by (rewrite Hs; discriminate).
  unfold Pick.completion_of. rewrite Hs. simpl. rewrite Hv.
  unfold Pick.onDidChangeSelection, Pick.resolve. now rewrite pick_settle_input.
Qed.

(** A first pick, which offers no back button: a press of one reaches
    nobody, and clearing the selection then answers with [undefined]. *)
Lemma selection_settles_the_pick_witness :
  let q := Pick.mkParameters "Pick an action" 1 1 ["Connect"; "ChangeSSHDirectory"]
             None "" None shouldResume in
  exists box,
    Pick.showQuickPick q 1
      ([Pick.DidTriggerButton Back] ++ Pick.DidChangeSelection [] :: [Pick.DidHide])
    = (returned (Pick.selected None), box, [Pick.DidHide]).
Proof.
  intros q. eexists.
  refine (selection_settles_the_pick string q 1 [Pick.DidTriggerButton Back] []
            [Pick.DidHide] _ _); reflexivity.
Defined.

Section BothPrompts.
Context {T : Type}.
Variables (p : InputBoxParameters.t) (q : Pick.Parameters T).
Hypothesis same_shouldResume : InputBoxParameters.shouldResume p = Pick.p_shouldResume q.

Lemma on_event_matched s (t : Pick.Session T) g :
  matched s t -> matched (on_event p s (text_event g)) (Pick.on_event q t (pick_event g)).
Proof.
  intros Hm. pose proof Hm as (Hv & Hb & Hp). destruct g as [item|]; simpl; rewrite <- ?Hv, <- ?Hb.
  - destruct (QuickInput.visible (input s) && _); [|exact Hm].
    unfold onDidTriggerButton, Pick.onDidTriggerButton, resolve, reject,
      Pick.resolve, Pick.reject.
    destruct (decide (item = Back)); unfold matched;
      rewrite !settle_input, !pick_settle_input, !settle_promise, !pick_settle_promise;
      (split; [exact Hv|split; [exact Hb|]]);
      destruct (promise s) as [[[?|?]|?]|], (Pick.promise t) as [[[?|?]|?]|];
      simpl in *; auto; try contradiction.
  - destruct (QuickInput.visible (input s)) eqn:V; [|exact Hm].
    unfold onDidHide, Pick.onDidHide, reject, Pick.reject. rewrite <- same_shouldResume.
    destruct (InputBoxParameters.shouldResume p); unfold matched;
      rewrite ?settle_input, ?pick_settle_input, ?settle_promise, ?pick_settle_promise;
      simpl; (split; [reflexivity|split; [exact Hb|]]);
      destruct (promise s) as [[[?|?]|?]|], (Pick.promise t) as [[[?|?]|?]|];
      simpl in *; auto; try contradiction.
Qed.

Lemma await_prompt_matched gs : forall s (t : Pick.Session T),
  matched s t ->
  matched (fst (await_prompt p s (text_event <$> gs)))
          (fst (Pick.await_prompt q t (pick_event <$> gs))) /\
  exists gs', snd (await_prompt p s (text_event <$> gs)) = text_event <$> gs' /\
              snd (Pick.await_prompt q t (pick_event <$> gs)) = pick_event <$> gs'.
Proof.
  induction gs as [|g gs IH]; intros s t Hm.
  - rewrite await_prompt_nil. simpl. destruct (Pick.promise t); simpl;
      (split; [exact Hm|exists []; auto]).
  - pose proof Hm as (_ & _ & Hp). rewrite !fmap_cons.
    destruct (promise s) as [x|] eqn:Es, (Pick.promise t) as [y|] eqn:Et;
      try (destruct x as [[?|?]|?]; contradiction);
      try (destruct y as [[?|?]|?]; contradiction).
    + rewrite await_prompt_settled, pick_await_settled by congruence. simpl.
      split; [exact Hm|]. exists (g :: gs). auto.
    + rewrite await_prompt_cons, pick_await_cons by assumption.
      apply IH, on_event_matched, Hm.
Qed.
End BothPrompts.

(** X12. Pressing buttons and dismissing mean the same to both kinds of
    prompt. Opened at the same depth of the history with the same custom
    buttons and the same [shouldResume], and given the same gestures, a text
    prompt and a quick pick end alike -- both unanswered, both rejected with
    the same flow action or error, or both answered with the same button --
    and leave the same gestures undelivered. *)
Theorem both_prompts_take_gestures_alike (T : Type)
    (p : InputBoxParameters.t) (q : Pick.Parameters T) (n : nat) (gs : list Gesture) :
  InputBoxParameters.buttons p = Pick.p_buttons q ->
  InputBoxParameters.shouldResume p = Pick.p_shouldResume q ->
  alike (fst (fst (showInputBox p n (text_event <$> gs))))
        (fst (fst (Pick.showQuickPick q n (pick_event <$> gs)))) /\
  exists gs',
    snd (showInputBox p n (text_event <$> gs)) = text_event <$> gs' /\
    snd (Pick.showQuickPick q n (pick_event <$> gs)) = pick_event <$> gs'.
Proof.
  intros Hb Hsr.
  assert (matched (open_session p n) (Pick.open_session q n)) as Hm.
  { repeat split. simpl. now rewrite Hb. }
  destruct (await_prompt_matched p q Hsr gs _ _ Hm) as ((_ & _ & Hp) & gs' & H1 & H2).
  unfold showInputBox, Pick.showQuickPick.
  destruct (await_prompt p (open_session p n) (text_event <$> gs)) as [s' r].
  destruct (Pick.await_prompt q (Pick.open_session q n) (pick_event <$> gs)) as [t' r'].
  simpl in *. split; [|exists gs'; auto].
  unfold alike, completion_of, Pick.completion_of.
  destruct (promise s') as [[[?|?]|?]|], (Pick.promise t') as [[[?|?]|?]|]; auto.
Qed.

(** At a second step, with a "Help" button and a [shouldResume] that
    resolves to false: the help button answers both prompts; a dismissal
    would have cancelled both. *)
Lemma both_prompts_take_gestures_alike_witness :
  let help := custom "Help" in
  let p := InputBoxParameters.mk title 2 4 "" "Enter the SSH key username"
             validateNameIsUnique (Some [help]) (resolves false) in
  let q := Pick.mkParameters title 2 4 ["a"; "b"] None "Pick one" (Some [help])
             (resolves false) in
  fst (fst (showInputBox p 2 (text_event <$> [press help; dismiss])))
    = returned (triggered help) /\
  fst (fst (showInputBox p 2 (text_event <$> [dismiss]))) = threw (flow cancel) /\
  alike (fst (fst (showInputBox p 2 (text_event <$> [dismiss]))))
        (fst (fst (Pick.showQuickPick q 2 (pick_event <$> [dismiss])))).
Proof.
  intros help p q. split; [vm_compute; reflexivity|]. split; [vm_compute; reflexivity|].
  refine (proj1 (both_prompts_take_gestures_alike string p q 2 [dismiss] _ _)); reflexivity.
Defined.

(** ** The project gcloud is set to *)

Lemma loop_body_project k s this w :
  chain_state shouldResume k (Some s) this w ->
  project_is_set w ->
  match loop_body s this w with
  | next_iteration _ _ w' | awaiting _ w' => project_is_set w'
  | rethrown _ _ _ => True
  end.
Proof.
  intros (Hs & Hh & Hc & Ht) Hq.
  destruct k as [|[|[|[|k]]]]; simpl in Hs; try discriminate; injection Hs as ->;
    call_of_loop_body this w E; step_cases E;
    first [ rewrite (loop_body_returned _ _ _ _ _ _ E)
          | rewrite (loop_body_back _ _ _ _ _ E)
          | rewrite (loop_body_suspended _ _ _ _ _ E) ];
    simpl; try exact Hq.
  unfold project_is_set. simpl. now rewrite last_snoc.
Qed.

Lemma wizard_run_project fuel : forall k step this w,
  chain_state shouldResume k step this w ->
  project_is_set w ->
  length (events w) < fuel ->
  exists w', final_world (snd (stepThrough fuel step this w)) = Some w' /\ project_is_set w'.
Proof.
  induction fuel as [|fuel IH]; intros k [s|] this w Hk Hq Hlen; try lia.
  - rewrite stepThrough_unfold.
    pose proof (loop_body_chain k s this w Hk) as Hb.
    pose proof (loop_body_project k s this w Hk Hq) as Hr.
    destruct (loop_body s this w) as [step1 this1 w1|err1 this1 w1|this1 w1]; simpl;
      try contradiction; eauto.
    destruct Hb as ((k' & Hk') & Hlt).
    destruct (IH k' step1 this1 w1 Hk' Hr ltac:(lia)) as (w' & Hw & Hq').
    destruct (stepThrough fuel step1 this1 w1) as [tr o]. eauto.
  - rewrite stepThrough_done. simpl. eauto.
Qed.

(** X14. Whatever events the host delivers, the last line the terminal was
    sent during the wizard sets the project to the name the record holds:
    when the user goes back and enters another name, the project is set
    again; and while the record names no project the terminal has been sent
    nothing. *)
Theorem project_follows_the_record (host_events : list Event) :
  exists w,
    final_world (snd (collectProjectInputs shouldResume
                        (mkHost host_events ProjectState.empty []))) = Some w /\
    last (terminal w)
      = (fun name => "gcloud config set project " +:+ name) <$> ProjectState.name (state w).
Proof.
  unfold collectProjectInputs, run. simpl events. simpl terminal.
  apply (wizard_run_project (S (length host_events)) 0).
  - apply wizard_starts.
  - reflexivity.
  - simpl. lia.
Qed.
